(** * The pattern rewrite walker of xdsl ([xdsl/rewriter.py])

    A shallow embedding of [RewriteAction], [OperandUpdater] and
    [PatternRewriteWalker], and the properties of the walker that the
    design document states about them. *)

From stdpp Require Import gmap strings list fin_maps.

Set Default Proof Using "Type".

(** ** Python outcomes *)

(** The exceptions the module can raise. [Exception] carries its message. *)
Inductive PyExc :=
| AssertionError
| IndexError
| TypeError
| Exception (msg : string).

(** What a call does: it returns, it raises, or the recursion budget of the
    model ran out before it finished (the source recursion is unbounded). *)
Inductive Outcome (A : Type) :=
| Return (a : A)
| Raise (e : PyExc)
| OutOfFuel.
Arguments Return {A} a.
Arguments Raise {A} e.
Arguments OutOfFuel {A}.

Definition obind {A B} (x : Outcome A) (f : A -> Outcome B) : Outcome B :=
  match x with
  | Return a => f a
  | Raise e => Raise e
  | OutOfFuel => OutOfFuel
  end.

(** [l[i]] for a non-negative index. *)
Definition py_index {A} (l : list A) (i : nat) : Outcome A :=
  match nth_error l i with
  | Some a => Return a
  | None => Raise IndexError
  end.

(** ** The IR the engine consumes ([xdsl.ir], [xdsl.dialects.builtin]) *)

(** Modelled from the spec: the class [SSAValue] of [xdsl.ir] is not part of
    the sources at hand.  "An immutable, identity-distinct handle"; "identity,
    not structural equality, is what the engine keys on".  A value is
    represented by its identity. *)
Abbreviation SSAValue := nat.

(** Modelled from the spec: the operation classes are not part of the sources
    at hand.  The only kind the engine tells apart is the module kind
    ([isinstance(res_op, ModuleOp)]). *)
Inductive OpKind :=
| ModuleOp
| OtherOp (name : string).

(** Modelled from the spec: [Operation], [Region] and [Block] of [xdsl.ir]
    are not part of the sources at hand.  "Operation: an ordered list of
    operand values, an ordered list of result values it exclusively owns, an
    ordered list of owned regions, and a mapping of named attributes";
    "Region: an ordered list of exclusively owned blocks"; "Block: an ordered
    list of exclusively owned operations plus an ordered list of owned
    block-argument values".  [op_id] stands for the identity of the Python
    object: an operation mutated in place keeps it. *)
Inductive Operation :=
| mkOperation (op_id : nat) (kind : OpKind)
              (operands results : list SSAValue)
              (regions : list Region)
              (attributes : gmap string string)
with Region :=
| mkRegion (blocks : list Block)
with Block :=
| mkBlock (args : list SSAValue) (ops : list Operation).

Definition op_id (o : Operation) : nat :=
  match o with mkOperation i _ _ _ _ _ => i end.
Definition kind (o : Operation) : OpKind :=
  match o with mkOperation _ k _ _ _ _ => k end.
Definition operands (o : Operation) : list SSAValue :=
  match o with mkOperation _ _ xs _ _ _ => xs end.
Definition results (o : Operation) : list SSAValue :=
  match o with mkOperation _ _ _ rs _ _ => rs end.
Definition regions (o : Operation) : list Region :=
  match o with mkOperation _ _ _ _ rg _ => rg end.
Definition attributes (o : Operation) : gmap string string :=
  match o with mkOperation _ _ _ _ _ a => a end.
Definition blocks (r : Region) : list Block :=
  match r with mkRegion bs => bs end.
Definition args (b : Block) : list SSAValue :=
  match b with mkBlock a _ => a end.
Definition ops (b : Block) : list Operation :=
  match b with mkBlock _ os => os end.

(** [op.operands = xs] and [op.regions = rg]: assignment to a field of the
    object, every other field and the identity stay. *)
Definition set_operands (o : Operation) (xs : list SSAValue) : Operation :=
  match o with mkOperation i k _ rs rg a => mkOperation i k xs rs rg a end.
Definition set_regions (o : Operation) (rg : list Region) : Operation :=
  match o with mkOperation i k xs rs _ a => mkOperation i k xs rs rg a end.

(** Modelled from the spec: the constructors and the appending methods of
    [xdsl.ir] are not part of the sources at hand.  "A block supports being
    constructed empty, then populated by appending operations"; "a region
    supports being constructed empty, then populated by appending blocks";
    an operation's regions are an ordered list.  [Block()] is called without
    argument values, so the block it builds has none (the front end of this
    repository calls [Block()] and then [insert_arg] for each argument). *)
Definition Block_new : Block := mkBlock [] [].
Definition Region_new : Region := mkRegion [].
Definition add_ops (b : Block) (new_ops : list Operation) : Block :=
  mkBlock (args b) (ops b ++ new_ops).
Definition add_block (r : Region) (b : Block) : Region :=
  mkRegion (blocks r ++ [b]).
Definition add_region (o : Operation) (r : Region) : Operation :=
  set_regions o (regions o ++ [r]).

Definition is_ModuleOp (o : Operation) : bool :=
  match kind o with ModuleOp => true | OtherOp _ => false end.

(** ** RewriteAction *)

Record RewriteAction := mkRewriteAction {
  new_ops : list Operation;
  new_results : list SSAValue
}.

(** [RewriteAction.__init__]: without [new_results], the results of the last
    new operation, or nothing when there is no new operation. *)
Definition RewriteAction_init (new_ops : list Operation)
    (new_results : option (list SSAValue)) : RewriteAction :=
  match new_results with
  | Some rs => mkRewriteAction new_ops rs
  | None =>
      match last new_ops with
      | None => mkRewriteAction new_ops []
      | Some o => mkRewriteAction new_ops (results o)
      end
  end.

(** ** RewritePattern *)

(** [match_and_rewrite(op, new_operands)]: "a side-effect free rewrite
    pattern", [None] when the pattern did not match. *)
Record RewritePattern := mkRewritePattern {
  match_and_rewrite : Operation -> list SSAValue -> option RewriteAction
}.

(** [AnonymousRewritePattern(func)]. *)
Definition AnonymousRewritePattern
    (func : Operation -> list SSAValue -> option RewriteAction)
  : RewritePattern := mkRewritePattern func.

(** ** OperandUpdater *)

Record OperandUpdater := mkOperandUpdater {
  result_mapping : gmap SSAValue SSAValue
}.

(** [self.result_mapping[old_res] = new_res] for each pair of the [zip]. *)
Definition record_pairs (m : gmap SSAValue SSAValue)
    (ps : list (SSAValue * SSAValue)) : gmap SSAValue SSAValue :=
  foldl (fun acc p => <[p.1 := p.2]> acc) m ps.

Definition bookkeep_results (self : OperandUpdater) (old_op : Operation)
    (action : RewriteAction) : Outcome OperandUpdater :=
  if decide (length (results old_op) = 0) then Return self
  else if decide (length (results old_op) = length (new_results action))
  then Return (mkOperandUpdater
                 (record_pairs (result_mapping self)
                    (zip (results old_op) (new_results action))))
  else Raise AssertionError.

Definition get_new_value (self : OperandUpdater) (value : SSAValue)
  : SSAValue :=
  default value (result_mapping self !! value).

Definition get_new_operands (self : OperandUpdater) (op : Operation)
  : list SSAValue :=
  map (get_new_value self) (operands op).

Definition update_operands (self : OperandUpdater) (op : Operation)
  : Operation :=
  set_operands op (get_new_operands self op).

(** ** PatternRewriteWalker *)

(** The part of a walk that changes while it runs: the walker's [_updater],
    and [offered], the history of the calls made to
    [pattern.match_and_rewrite] (operation and operands handed over), oldest
    first.  The history is not a field of the source; it is what a pattern
    that records its calls would observe. *)
Record WalkState := mkWalkState {
  updater : OperandUpdater;
  offered : list (Operation * list SSAValue)
}.

(** A method of the walker: it reads and updates the walk state, and returns,
    raises or exhausts the recursion budget. *)
Definition Walk (A : Type) : Type := WalkState -> Outcome (A * WalkState).

Definition wret {A} (a : A) : Walk A := fun s => Return (a, s).

Definition wbind {A B} (m : Walk A) (f : A -> Walk B) : Walk B :=
  fun s =>
    match m s with
    | Return (a, s') => f a s'
    | Raise e => Raise e
    | OutOfFuel => OutOfFuel
    end.

Definition wraise {A} (e : PyExc) : Walk A := fun _ => Raise e.

Definition out_of_fuel {A} : Walk A := fun _ => OutOfFuel.

(** A method of the updater that may raise, run on the walker's updater. *)
Definition with_updater (f : OperandUpdater -> Outcome OperandUpdater)
  : Walk unit :=
  fun s =>
    match f (updater s) with
    | Return u => Return (tt, mkWalkState u (offered s))
    | Raise e => Raise e
    | OutOfFuel => OutOfFuel
    end.

Declare Scope walk_scope.
Delimit Scope walk_scope with walk.
Notation "x <- m ;; k" := (wbind m (fun x => k))
  (at level 100, m at next level, right associativity) : walk_scope.
Notation "m ;;; k" := (wbind m (fun _ => k))
  (at level 100, right associativity) : walk_scope.
Open Scope walk_scope.

Section Walker.

(** The two fields of the walker that a walk only reads. *)
Variable pattern : RewritePattern.
Variable walk_regions_first : bool.

(** [self.pattern.match_and_rewrite(op, self._updater.get_new_operands(op))] *)
Definition offer (op : Operation) : Walk (option RewriteAction) :=
  fun s =>
    let new_operands := get_new_operands (updater s) op in
    Return (match_and_rewrite pattern op new_operands,
            mkWalkState (updater s) (offered s ++ [(op, new_operands)])).

(** [self._updater.update_operands(op)] *)
Definition rebind (op : Operation) : Walk Operation :=
  fun s => Return (update_operands (updater s) op, s).

Section Loops.

(** The recursive call [self.rewrite_op]. *)
Variable rec : Operation -> Walk (list Operation).

(** [for new_op in action.new_ops: new_ops.extend(self.rewrite_op(new_op))] *)
Fixpoint extend_loop (todo : list Operation) (new_ops : list Operation)
  : Walk (list Operation) :=
  match todo with
  | [] => wret new_ops
  | new_op :: todo' =>
      r <- rec new_op ;;
      extend_loop todo' (new_ops ++ r)
  end.

(** [for sub_op in block.ops: new_block.add_ops(self.rewrite_op(sub_op))] *)
Fixpoint block_loop (todo : list Operation) (new_block : Block)
  : Walk Block :=
  match todo with
  | [] => wret new_block
  | sub_op :: todo' =>
      r <- rec sub_op ;;
      block_loop todo' (add_ops new_block r)
  end.

(** [for block in region.blocks: new_block = Block(); ...;
     new_region.add_block(new_block)] *)
Fixpoint region_loop (todo : list Block) (new_region : Region)
  : Walk Region :=
  match todo with
  | [] => wret new_region
  | block :: todo' =>
      new_block <- block_loop (ops block) Block_new ;;
      region_loop todo' (add_block new_region new_block)
  end.

(** [for region in op.regions: new_region = Region(); ...;
     new_regions.append(new_region)] *)
Fixpoint regions_loop (todo : list Region) (new_regions : list Region)
  : Walk (list Region) :=
  match todo with
  | [] => wret new_regions
  | region :: todo' =>
      new_region <- region_loop (blocks region) Region_new ;;
      regions_loop todo' (new_regions ++ [new_region])
  end.

(** The body of [rewrite_op_regions]; the operation it returns is [op]
    after the assignment [op.regions = []] and the [add_region] calls. *)
Definition rewrite_op_regions_with (op : Operation) : Walk Operation :=
  new_regions <- regions_loop (regions op) [] ;;
  wret (foldl add_region (set_regions op []) new_regions).

(** The body of [rewrite_op]. *)
Definition rewrite_op_body (op : Operation) : Walk (list Operation) :=
  op <- (if walk_regions_first then rewrite_op_regions_with op
         else wret op) ;;
  action <- offer op ;;
  match action with
  | Some action =>
      with_updater (fun u => bookkeep_results u op action) ;;;
      extend_loop (new_ops action) []
  | None =>
      op <- rebind op ;;
      op <- (if negb walk_regions_first then rewrite_op_regions_with op
             else wret op) ;;
      wret [op]
  end.

End Loops.

(** [rewrite_op]; [fuel] bounds the depth of the recursion. *)
Fixpoint rewrite_op (fuel : nat) (op : Operation) : Walk (list Operation) :=
  match fuel with
  | 0 => out_of_fuel
  | S fuel' => rewrite_op_body (rewrite_op fuel') op
  end.

(** [rewrite_op_regions]; its calls of [rewrite_op] have [fuel] levels. *)
Definition rewrite_op_regions (fuel : nat) (op : Operation)
  : Walk Operation :=
  rewrite_op_regions_with (rewrite_op fuel) op.

(** [rewrite_module] *)
Definition rewrite_module (fuel : nat) (op : Operation) : Walk Operation :=
  new_ops <- rewrite_op fuel op ;;
  if decide (length new_ops = 1) then
    res_op <- (fun s => obind (py_index new_ops 1)
                              (fun o => Return (o, s))) ;;
    if is_ModuleOp res_op then wret res_op
    else wraise (Exception
           "Rewrite pattern did not rewrite a module into another module.")
  else wraise (Exception
         "Rewrite pattern did not rewrite a module into another module.").

End Walker.

(** The first step of [rewrite_op]: the regions are walked before the
    pattern sees the operation when [walk_regions_first] is set. *)
Definition pre_stage (pattern : RewritePattern) (walk_regions_first : bool)
    (fuel : nat) (op : Operation) : Walk Operation :=
  if walk_regions_first
  then rewrite_op_regions pattern walk_regions_first fuel op
  else wret op.

(** The walk state right after the pattern has been called on [op]. *)
Definition logged (s : WalkState) (op : Operation) : WalkState :=
  mkWalkState (updater s)
    (offered s ++ [(op, get_new_operands (updater s) op)]).

(** ** Construction of the objects ([dataclasses]) *)

(** The Python objects a [default_factory] of this module can be: the class
    [dict], or a dictionary. *)
Inductive PyObject :=
| py_dict_class
| py_dict (d : gmap SSAValue SSAValue).

(** [f()]: the class [dict] builds an empty dictionary, a dictionary is not
    callable. *)
Definition py_call (f : PyObject) : Outcome (gmap SSAValue SSAValue) :=
  match f with
  | py_dict_class => Return ∅
  | py_dict _ => Raise TypeError
  end.

(** [field(default_factory=dict())]: the argument is the value of the call
    [dict()], evaluated once when the class body runs. *)
Definition result_mapping_default_factory : PyObject := py_dict ∅.

(** The [__init__] that [@dataclass] generates for [OperandUpdater]: a field
    that is not given is set to the result of calling its default factory. *)
Definition OperandUpdater_init
    (result_mapping : option (gmap SSAValue SSAValue))
  : Outcome OperandUpdater :=
  match result_mapping with
  | Some m => Return (mkOperandUpdater m)
  | None =>
      obind (py_call result_mapping_default_factory)
            (fun m => Return (mkOperandUpdater m))
  end.

Record PatternRewriteWalker := mkPatternRewriteWalker {
  pattern : RewritePattern;
  walk_regions_first : bool;
  _updater : OperandUpdater
}.

(** The [__init__] that [@dataclass] generates for [PatternRewriteWalker]:
    [walk_regions_first] defaults to [False]; [_updater] has [init=False], so
    it is no parameter and is always set by calling its default factory, the
    class [OperandUpdater], without arguments. *)
Definition PatternRewriteWalker_init (pattern : RewritePattern)
    (walk_regions_first : option bool) : Outcome PatternRewriteWalker :=
  obind (OperandUpdater_init None)
        (fun u => Return (mkPatternRewriteWalker pattern
                            (default false walk_regions_first) u)).

(** The state in which a walk of the walker [self] starts. *)
Definition start (self : PatternRewriteWalker) : WalkState :=
  mkWalkState (_updater self) [].

(** ** What a walk with a pattern that never matches computes *)

(** The tree the walk leaves behind when no pattern matches: every operand is
    looked up in the updater [u], every block is a new block. *)
Fixpoint rebuilt (u : OperandUpdater) (o : Operation) : Operation :=
  match o with
  | mkOperation i k xs rs rg a =>
      mkOperation i k (map (get_new_value u) xs) rs
                  (map (rebuilt_region u) rg) a
  end
with rebuilt_region (u : OperandUpdater) (r : Region) : Region :=
  match r with
  | mkRegion bs => mkRegion (map (rebuilt_block u) bs)
  end
with rebuilt_block (u : OperandUpdater) (b : Block) : Block :=
  match b with
  | mkBlock _ os => mkBlock [] (map (rebuilt u) os)
  end.

(** Nesting depth of an operation: 1 for an operation without regions. *)
Fixpoint depth (o : Operation) : nat :=
  match o with
  | mkOperation _ _ _ _ rg _ => S (max_list (map region_depth rg))
  end
with region_depth (r : Region) : nat :=
  match r with
  | mkRegion bs => max_list (map block_depth bs)
  end
with block_depth (b : Block) : nat :=
  match b with
  | mkBlock _ os => max_list (map depth os)
  end.

(** No block of the operation has block arguments. *)
Fixpoint no_block_args (o : Operation) : bool :=
  match o with
  | mkOperation _ _ _ _ rg _ => forallb region_no_block_args rg
  end
with region_no_block_args (r : Region) : bool :=
  match r with
  | mkRegion bs => forallb block_no_block_args bs
  end
with block_no_block_args (b : Block) : bool :=
  match b with
  | mkBlock a os =>
      match a with [] => forallb no_block_args os | _ :: _ => false end
  end.

(** The identities of the operations of a tree, parents before their nested
    operations ([preorder_ids]) or after them ([postorder_ids]). *)
Fixpoint preorder_ids (o : Operation) : list nat :=
  match o with
  | mkOperation i _ _ _ rg _ => i :: concat (map region_preorder_ids rg)
  end
with region_preorder_ids (r : Region) : list nat :=
  match r with
  | mkRegion bs => concat (map block_preorder_ids bs)
  end
with block_preorder_ids (b : Block) : list nat :=
  match b with
  | mkBlock _ os => concat (map preorder_ids os)
  end.

Fixpoint postorder_ids (o : Operation) : list nat :=
  match o with
  | mkOperation i _ _ _ rg _ => concat (map region_postorder_ids rg) ++ [i]
  end
with region_postorder_ids (r : Region) : list nat :=
  match r with
  | mkRegion bs => concat (map block_postorder_ids bs)
  end
with block_postorder_ids (b : Block) : list nat :=
  match b with
  | mkBlock _ os => concat (map postorder_ids os)
  end.

(** The identities of the operations in a call history. *)
Definition offered_ids (log : list (Operation * list SSAValue)) : list nat :=
  map (fun c => op_id c.1) log.

(** "For each newly produced operation (in order), recursively invoke this
    same rewrite procedure and flatten the results; return the
    concatenation": [rewrite_each rec l s out s'] holds when the calls of
    [rec] on the operations of [l], one after the other from state [s], all
    return, [out] is their results concatenated and [s'] the last state. *)
Inductive rewrite_each (rec : Operation -> Walk (list Operation))
  : list Operation -> WalkState -> list Operation -> WalkState -> Prop :=
| rewrite_each_nil s : rewrite_each rec [] s [] s
| rewrite_each_cons o l s r s1 out s2 :
    rec o s = Return (r, s1) ->
    rewrite_each rec l s1 out s2 ->
    rewrite_each rec (o :: l) s (r ++ out) s2.

(** ** Sample inputs *)

Definition never_matches : RewritePattern :=
  AnonymousRewritePattern (fun _ _ => None).

Definition empty_state : WalkState := mkWalkState (mkOperandUpdater ∅) [].

(** A module without content. *)
Definition empty_module : Operation := mkOperation 0 ModuleOp [] [] [] ∅.

(** [return x], with [x] the value 7. *)
Definition return_op : Operation :=
  mkOperation 2 (OtherOp "func.return") [7] [] [] ∅.

(** A function whose entry block has the block argument 7 and returns it. *)
Definition func_op : Operation :=
  mkOperation 1 (OtherOp "func.func") [] []
              [mkRegion [mkBlock [7] [return_op]]] ∅.

(** The module that holds the function. *)
Definition func_module : Operation :=
  mkOperation 0 ModuleOp [] [] [mkRegion [mkBlock [] [func_op]]] ∅.

(** [walk_each f l s out s']: the calls of [f] on the elements of [l], one
    after the other from state [s], all return; [out] lists what they
    returned and [s'] is the last state. *)
Inductive walk_each {A B : Type} (f : A -> Walk B)
  : list A -> WalkState -> list B -> WalkState -> Prop :=
| walk_each_nil s : walk_each f [] s [] s
| walk_each_cons a l s b s1 out s2 :
    f a s = Return (b, s1) ->
    walk_each f l s1 out s2 ->
    walk_each f (a :: l) s (b :: out) s2.

(** [new_block = Block(); for sub_op in block.ops: ...], the rebuilding of
    one block, and [new_region = Region(); for block in region.blocks: ...],
    the rebuilding of one region. *)
Definition rebuild_block (rec : Operation -> Walk (list Operation))
    (block : Block) : Walk Block :=
  block_loop rec (ops block) Block_new.
Definition rebuild_region (rec : Operation -> Walk (list Operation))
    (region : Region) : Walk Region :=
  region_loop rec (blocks region) Region_new.

(** The call history of [s'] continues the one of [s]. *)
Definition log_extends (s s' : WalkState) : Prop :=
  exists l, offered s' = offered s ++ l.

(** [m'] does what [m] does wherever [m] finishes within its budget. *)
Definition walk_le {A} (m m' : Walk A) : Prop :=
  forall s, m s <> OutOfFuel -> m' s = m s.

(** The order in which a walk meets the operations of a tree when no pattern
    matches. *)
Definition visit_order (walk_regions_first : bool) (o : Operation)
  : list nat :=
  if walk_regions_first then postorder_ids o else preorder_ids o.
Definition block_visit_order (walk_regions_first : bool) (b : Block)
  : list nat :=
  if walk_regions_first then block_postorder_ids b else block_preorder_ids b.
Definition region_visit_order (walk_regions_first : bool) (r : Region)
  : list nat :=
  if walk_regions_first then region_postorder_ids r
  else region_preorder_ids r.

(** [m] returns [a] from [s], leaves the updater as it is and calls the
    pattern on the operations [ids], in this order. *)
Definition quiet {A} (m : Walk A) (s : WalkState) (a : A) (ids : list nat)
  : Prop :=
  exists log,
    m s = Return (a, mkWalkState (updater s) (offered s ++ log)) /\
    offered_ids log = ids.

(** ** The type filter [op_type_rewrite_pattern] *)

(** The wrapper that the decorator builds around a function without [self]:
    [expected] stands for [isinstance(op, expected_type)]. *)
Definition op_type_rewrite_pattern (expected : Operation -> bool)
    (func : Operation -> list SSAValue -> option RewriteAction)
  : Operation -> list SSAValue -> option RewriteAction :=
  fun op operands => if expected op then func op operands else None.

(** ** More sample inputs *)

Definition has_name (name : string) (o : Operation) : bool :=
  match kind o with
  | ModuleOp => false
  | OtherOp n => bool_decide (n = name)
  end.

(** [9 = 7 + 8], [10 = 7 * 8], and an operation without results. *)
Definition add_op : Operation :=
  mkOperation 3 (OtherOp "arith.addi") [7; 8] [9] [] ∅.
Definition mul_op : Operation :=
  mkOperation 4 (OtherOp "arith.muli") [7; 8] [10] [] ∅.
Definition erase_op : Operation :=
  mkOperation 5 (OtherOp "test.erase") [] [] [] ∅.

(** Replaces an addition by the multiplication; the new results are the
    results of the last new operation. *)
Definition add_to_mul : RewritePattern :=
  AnonymousRewritePattern
    (op_type_rewrite_pattern (has_name "arith.addi")
       (fun _ _ => Some (RewriteAction_init [mul_op] None))).

(** The same, with two replacement results for the one result. *)
Definition add_to_mul_two_results : RewritePattern :=
  AnonymousRewritePattern
    (op_type_rewrite_pattern (has_name "arith.addi")
       (fun _ _ => Some (RewriteAction_init [mul_op] (Some [10; 10])))).

(** Removes [test.erase] and names a replacement result all the same. *)
Definition erase_with_result : RewritePattern :=
  AnonymousRewritePattern
    (op_type_rewrite_pattern (has_name "test.erase")
       (fun _ _ => Some (RewriteAction_init [] (Some [7])))).

(** A module whose only block holds the addition and a user of its result. *)
Definition add_module : Operation :=
  mkOperation 0 ModuleOp [] []
    [mkRegion [mkBlock []
       [add_op; mkOperation 6 (OtherOp "test.use") [9] [] [] ∅]]] ∅.

(** ** Further notions for the properties of the walk *)

(** Every operation of the tree has a kind that satisfies [P]. *)
Fixpoint all_kinds (P : OpKind -> bool) (o : Operation) : bool :=
  match o with
  | mkOperation _ k _ _ rg _ => P k && forallb (region_all_kinds P) rg
  end
with region_all_kinds (P : OpKind -> bool) (r : Region) : bool :=
  match r with
  | mkRegion bs => forallb (block_all_kinds P) bs
  end
with block_all_kinds (P : OpKind -> bool) (b : Block) : bool :=
  match b with
  | mkBlock _ os => forallb (all_kinds P) os
  end.

(** Every key of the updater of [s] is still a key in [s']. *)
Definition keeps_keys (s s' : WalkState) : Prop :=
  forall k, is_Some (result_mapping (updater s) !! k) ->
            is_Some (result_mapping (updater s') !! k).

(** From [s] to [s'] the pattern has been called on the operations of some
    history [l], and a value resolves differently only if it is a result of
    one of them. *)
Definition rebinds_offered_results (s s' : WalkState) : Prop :=
  exists l,
    offered s' = offered s ++ l /\
    forall v,
      result_mapping (updater s') !! v <> result_mapping (updater s) !! v ->
      exists c, c ∈ l /\ v ∈ results c.1.

(** The pattern call that [rewrite_op] makes on an operation that it hands
    over as it is, under the updater [u]. *)
Definition call_of (u : OperandUpdater) (o : Operation)
  : Operation * list SSAValue :=
  (o, get_new_operands u o).

(** [11 = 7 - 8], and a pattern that turns the addition into the
    multiplication and the multiplication into the subtraction. *)
Definition sub_op : Operation :=
  mkOperation 7 (OtherOp "arith.subi") [7; 8] [11] [] ∅.
Definition add_to_mul_to_sub : RewritePattern :=
  AnonymousRewritePattern
    (fun op operands =>
       match op_type_rewrite_pattern (has_name "arith.addi")
               (fun _ _ => Some (RewriteAction_init [mul_op] None))
               op operands with
       | Some action => Some action
       | None =>
           op_type_rewrite_pattern (has_name "arith.muli")
             (fun _ _ => Some (RewriteAction_init [sub_op] None))
             op operands
       end).

(** ** The signature check of [op_type_rewrite_pattern] *)

(** What the annotation of a parameter can be, as [inspect.signature] gives
    it: a subclass of [Operation] (with its [isinstance] test), another class
    ([inspect.Parameter.empty], the annotation of a parameter without type
    hint, is one), or an object that is not a class. *)
Inductive Annotation :=
| operation_class (isinstance : Operation -> bool)
| other_class
| not_a_class.

(** [issubclass(expected_type, Operation)]; it raises [TypeError] when its
    first argument is not a class. *)
Definition issubclass_Operation (a : Annotation) : Outcome bool :=
  match a with
  | operation_class _ => Return true
  | other_class => Return false
  | not_a_class => Raise TypeError
  end.

(** The first part of [op_type_rewrite_pattern], run when the decorator is
    applied to a function whose parameters have the annotations [params]: it
    sets [has_self] and [expected_type], which the wrapper keeps. *)
Definition op_type_rewrite_pattern_expected (params : list Annotation)
  : Outcome (bool * Annotation) :=
  obind (if decide (length params = 3)
         then obind (py_index params 1) (fun a => Return (true, a))
         else obind (py_index params 0) (fun a => Return (false, a)))
    (fun '(has_self, expected_type) =>
       obind (issubclass_Operation expected_type) (fun sub =>
         if negb sub
         then Raise (Exception
                ("op_type_rewrite_pattern expects the first non-self " ++
                 "operand type hint to be an Operation subclass"))
         else Return (has_self, expected_type))).

(** [isinstance(op, expected_type)] for an operation [op]. *)
Definition isinstance_of (expected_type : Annotation) (op : Operation)
  : bool :=
  match expected_type with
  | operation_class isinstance => isinstance op
  | other_class => false
  | not_a_class => false
  end.

(** The wrapper built around a method ([has_self]): the receiver is passed
    on to the function. *)
Definition op_type_rewrite_pattern_method {Self : Type}
    (expected : Operation -> bool)
    (func : Self -> Operation -> list SSAValue -> option RewriteAction)
  : Self -> Operation -> list SSAValue -> option RewriteAction :=
  fun self op operands =>
    if expected op then func self op operands else None.

(** ** The operator tables of the front end
    ([xdsl/frontend/code_generation.py]) *)

(** [python_AST_operator_to_python_overload] of [visit_BinOp]. *)
Definition python_AST_operator_to_python_overload : gmap string string :=
  list_to_map
    [("Add", "__add__"); ("Sub", "__sub__"); ("Mult", "__mul__");
     ("Div", "__truediv__"); ("FloorDiv", "__floordiv__");
     ("Mod", "__mod__"); ("Pow", "__pow__"); ("LShift", "__lshift__");
     ("RShift", "__rshift__"); ("BitOr", "__or__"); ("BitXor", "__xor__");
     ("BitAnd", "__and__"); ("MatMult", "__matmul__")].

(** [python_AST_cmpop_to_python_overload], [unsupported_python_AST_cmpop]
    and [python_AST_cmpop_to_mnemonic] of [visit_Compare]. *)
Definition python_AST_cmpop_to_python_overload : gmap string string :=
  list_to_map
    [("Eq", "__eq__"); ("Gt", "__gt__"); ("GtE", "__ge__");
     ("Lt", "__lt__"); ("LtE", "__le__"); ("NotEq", "__ne__");
     ("In", "__contains__"); ("NotIn", "__contains__")].

Definition unsupported_python_AST_cmpop : gset string :=
  list_to_set ["Is"; "IsNot"; "NotIn"].

Definition python_AST_cmpop_to_mnemonic : gmap string string :=
  list_to_map
    [("Eq", "eq"); ("Gt", "sgt"); ("GtE", "sge"); ("Lt", "slt");
     ("LtE", "sle"); ("NotEq", "ne")].

(** The classes of binary operators and of comparison operators of Python's
    [ast] module (the standard library, not this repository), and the
    [__class__.__name__] of each, which the visitor uses as key. *)
Inductive ast_operator :=
| ast_Add | ast_Sub | ast_Mult | ast_MatMult | ast_Div | ast_Mod | ast_Pow
| ast_LShift | ast_RShift | ast_BitOr | ast_BitXor | ast_BitAnd
| ast_FloorDiv.

Definition operator_class_name (o : ast_operator) : string :=
  match o with
  | ast_Add => "Add" | ast_Sub => "Sub" | ast_Mult => "Mult"
  | ast_MatMult => "MatMult" | ast_Div => "Div" | ast_Mod => "Mod"
  | ast_Pow => "Pow" | ast_LShift => "LShift" | ast_RShift => "RShift"
  | ast_BitOr => "BitOr" | ast_BitXor => "BitXor" | ast_BitAnd => "BitAnd"
  | ast_FloorDiv => "FloorDiv"
  end.

Inductive ast_cmpop :=
| ast_Eq | ast_NotEq | ast_Lt | ast_LtE | ast_Gt | ast_GtE
| ast_Is | ast_IsNot | ast_In | ast_NotIn.

Definition cmpop_class_name (c : ast_cmpop) : string :=
  match c with
  | ast_Eq => "Eq" | ast_NotEq => "NotEq" | ast_Lt => "Lt"
  | ast_LtE => "LtE" | ast_Gt => "Gt" | ast_GtE => "GtE"
  | ast_Is => "Is" | ast_IsNot => "IsNot" | ast_In => "In"
  | ast_NotIn => "NotIn"
  end.

(** An operation that holds the addition in its only block, and a pattern
    with two targets: it turns the addition into the multiplication and
    removes [test.wrap]. *)
Definition wrap_op : Operation :=
  mkOperation 8 (OtherOp "test.wrap") [] []
    [mkRegion [mkBlock [] [add_op]]] ∅.
Definition unwrap_and_mul : RewritePattern :=
  AnonymousRewritePattern
    (fun op operands =>
       match op_type_rewrite_pattern (has_name "arith.addi")
               (fun _ _ => Some (RewriteAction_init [mul_op] None))
               op operands with
       | Some action => Some action
       | None =>
           op_type_rewrite_pattern (has_name "test.wrap")
             (fun _ _ => Some (RewriteAction_init [] None))
             op operands
       end).

(** * Properties *)

(** ** The updater *)

Lemma get_new_value_lookup (u : OperandUpdater) (v : SSAValue) :
  get_new_value u v =
  match result_mapping u !! v with Some r => r | None => v end.
Proof. unfold get_new_value. by destruct (result_mapping u !! v). Qed.

Lemma get_new_value_empty (v : SSAValue) :
  get_new_value (mkOperandUpdater ∅) v = v.
Proof. unfold get_new_value. simpl. by rewrite lookup_empty. Qed.

Lemma get_new_operands_empty (op : Operation) :
  get_new_operands (mkOperandUpdater ∅) op = operands op.
Proof.
  unfold get_new_operands. induction (operands op) as [|x xs IH]; simpl.
  - done.
  - by rewrite get_new_value_empty, IH.
Qed.

(** A pair recorded by [record_pairs] is found again when no later pair has
    the same key. *)
Lemma record_pairs_lookup_notin (m : gmap SSAValue SSAValue)
    (ps : list (SSAValue * SSAValue)) (k : SSAValue) :
  k ∉ ps.*1 -> record_pairs m ps !! k = m !! k.
Proof.
  revert m. induction ps as [|[a b] ps IH]; intros m Hk; simpl in *.
  - done.
  - apply not_elem_of_cons in Hk as [Hne Hk].
    unfold record_pairs in *. simpl. rewrite IH by done.
    by rewrite lookup_insert_ne.
Qed.

Lemma record_pairs_lookup (m : gmap SSAValue SSAValue)
    (olds news : list SSAValue) (i : nat) (o n : SSAValue) :
  NoDup olds -> olds !! i = Some o -> news !! i = Some n ->
  record_pairs m (zip olds news) !! o = Some n.
Proof.
  revert m news i. induction olds as [|a olds IH]; intros m news i Hnd Ho Hn.
  - done.
  - destruct news as [|b news]; [done|].
    apply NoDup_cons in Hnd as [Ha Hnd].
    destruct i as [|i]; simpl in *.
    + injection Ho as ->. injection Hn as ->.
      unfold record_pairs. simpl.
      fold (record_pairs (<[o:=n]> m) (zip olds news)).
      rewrite record_pairs_lookup_notin.
      * apply lookup_insert_eq.
      * intros Hin. apply Ha. apply list_elem_of_fmap in Hin as [[x y] [-> Hin]].
        simpl. apply elem_of_zip_l in Hin. done.
    + unfold record_pairs. simpl.
      fold (record_pairs (<[a:=b]> m) (zip olds news)).
      by apply (IH _ _ i).
Qed.

(** What [bookkeep_results] records when the counts agree: the [i]-th result
    of the old operation is mapped to the [i]-th new result. *)
Lemma bookkeep_results_records (u u' : OperandUpdater) (op : Operation)
    (a : RewriteAction) (i : nat) (o n : SSAValue) :
  NoDup (results op) ->
  bookkeep_results u op a = Return u' ->
  results op !! i = Some o -> new_results a !! i = Some n ->
  get_new_value u' o = n.
Proof.
  intros Hnd Hb Ho Hn. unfold bookkeep_results in Hb.
  destruct (decide (length (results op) = 0)) as [Hz|Hz].
  - apply nil_length_inv in Hz. by rewrite Hz in Ho.
  - destruct (decide _) as [Hl|Hl]; [|done].
    injection Hb as <-. unfold get_new_value. simpl.
    by rewrite (record_pairs_lookup _ _ _ i o n).
Qed.

(** ** The walk monad *)

Lemma wbind_Return {A B} (m : Walk A) (f : A -> Walk B) s a s1 :
  m s = Return (a, s1) -> wbind m f s = f a s1.
Proof. unfold wbind. by intros ->. Qed.

Lemma wbind_Raise {A B} (m : Walk A) (f : A -> Walk B) s e :
  m s = Raise e -> wbind m f s = Raise e.
Proof. unfold wbind. by intros ->. Qed.

Lemma wbind_OutOfFuel {A B} (m : Walk A) (f : A -> Walk B) s :
  m s = OutOfFuel -> wbind m f s = OutOfFuel.
Proof. unfold wbind. by intros ->. Qed.

Lemma wbind_Return_inv {A B} (m : Walk A) (f : A -> Walk B) s b s' :
  wbind m f s = Return (b, s') ->
  exists a s1, m s = Return (a, s1) /\ f a s1 = Return (b, s').
Proof.
  unfold wbind. destruct (m s) as [[a s1]|e|]; [|done..].
  intros H. by exists a, s1.
Qed.

(** ** The regions of an operation after [rewrite_op_regions] *)

Lemma foldl_add_region (o : Operation) (rs : list Region) :
  foldl add_region o rs = set_regions o (regions o ++ rs).
Proof.
  revert o. induction rs as [|r rs IH]; intros o; simpl.
  - rewrite app_nil_r. by destruct o.
  - rewrite IH. destruct o. simpl. by rewrite <- app_assoc.
Qed.

Lemma set_regions_twice (o : Operation) (r1 r2 : list Region) :
  set_regions (set_regions o r1) r2 = set_regions o r2.
Proof. by destruct o. Qed.

Lemma regions_set_regions (o : Operation) (rg : list Region) :
  regions (set_regions o rg) = rg.
Proof. by destruct o. Qed.

(** ** The loops of the walker *)

Lemma add_ops_nil (b : Block) : add_ops b [] = b.
Proof. destruct b. unfold add_ops. simpl. by rewrite app_nil_r. Qed.

Lemma add_ops_add_ops (b : Block) (l1 l2 : list Operation) :
  add_ops (add_ops b l1) l2 = add_ops b (l1 ++ l2).
Proof. unfold add_ops. simpl. by rewrite app_assoc. Qed.

Section LoopFacts.

Variable rec : Operation -> Walk (list Operation).

Lemma extend_loop_spec todo acc s res s' :
  extend_loop rec todo acc s = Return (res, s') <->
  exists out, res = acc ++ out /\ rewrite_each rec todo s out s'.
Proof.
  split.
  - revert acc s. induction todo as [|o todo IH]; intros acc s H; simpl in H.
    + injection H as <- <-. exists []. split; [by rewrite app_nil_r|constructor].
    + apply wbind_Return_inv in H as (r & s1 & Hr & H).
      apply IH in H as (out & -> & H).
      exists (r ++ out). split; [by rewrite app_assoc|].
      by econstructor.
  - intros (out & -> & H). revert acc.
    induction H as [s|o l s r s1 out s2 Hr H IH]; intros acc; simpl.
    + by rewrite app_nil_r.
    + rewrite (wbind_Return _ _ _ _ _ Hr), IH. by rewrite app_assoc.
Qed.

Lemma block_loop_spec todo b s b' s' :
  block_loop rec todo b s = Return (b', s') <->
  exists out, b' = add_ops b out /\ rewrite_each rec todo s out s'.
Proof.
  split.
  - revert b s. induction todo as [|o todo IH]; intros b s H; simpl in H.
    + injection H as <- <-. exists []. split; [by rewrite add_ops_nil|constructor].
    + apply wbind_Return_inv in H as (r & s1 & Hr & H).
      apply IH in H as (out & -> & H).
      exists (r ++ out). split; [by rewrite add_ops_add_ops|].
      by econstructor.
  - intros (out & -> & H). revert b.
    induction H as [s|o l s r s1 out s2 Hr H IH]; intros b; simpl.
    + by rewrite add_ops_nil.
    + rewrite (wbind_Return _ _ _ _ _ Hr), IH. by rewrite add_ops_add_ops.
Qed.

Lemma region_loop_spec todo r s r' s' :
  region_loop rec todo r s = Return (r', s') <->
  exists bs, r' = mkRegion (blocks r ++ bs) /\
             walk_each (rebuild_block rec) todo s bs s'.
Proof.
  split.
  - revert r s. induction todo as [|b todo IH]; intros r s H; simpl in H.
    + injection H as <- <-. exists []. rewrite app_nil_r.
      split; [by destruct r|constructor].
    + apply wbind_Return_inv in H as (nb & s1 & Hb & H).
      apply IH in H as (bs & -> & H).
      exists (nb :: bs). simpl. rewrite <- app_assoc. split; [done|].
      by econstructor.
  - intros (bs & -> & H). revert r.
    induction H as [s|b l s nb s1 out s2 Hb H IH]; intros r; simpl.
    + rewrite app_nil_r. by destruct r.
    + unfold rebuild_block in Hb.
      rewrite (wbind_Return _ _ _ _ _ Hb), IH. simpl.
      by rewrite <- app_assoc.
Qed.

Lemma regions_loop_spec todo acc s res s' :
  regions_loop rec todo acc s = Return (res, s') <->
  exists rs, res = acc ++ rs /\ walk_each (rebuild_region rec) todo s rs s'.
Proof.
  split.
  - revert acc s. induction todo as [|r todo IH]; intros acc s H; simpl in H.
    + injection H as <- <-. exists []. rewrite app_nil_r.
      split; [done|constructor].
    + apply wbind_Return_inv in H as (nr & s1 & Hr & H).
      apply IH in H as (rs & -> & H).
      exists (nr :: rs). rewrite <- app_assoc. split; [done|].
      by econstructor.
  - intros (rs & -> & H). revert acc.
    induction H as [s|r l s nr s1 out s2 Hr H IH]; intros acc; simpl.
    + by rewrite app_nil_r.
    + unfold rebuild_region in Hr.
      rewrite (wbind_Return _ _ _ _ _ Hr), IH.
      by rewrite <- app_assoc.
Qed.

(** [rewrite_op_regions] returns [op] with a new list of regions, one for
    each old region, and changes nothing else of [op]. *)
Lemma rewrite_op_regions_with_spec op s op' s' :
  rewrite_op_regions_with rec op s = Return (op', s') <->
  exists rs, op' = set_regions op rs /\
             walk_each (rebuild_region rec) (regions op) s rs s'.
Proof.
  unfold rewrite_op_regions_with. split.
  - intros H. apply wbind_Return_inv in H as (rs & s1 & Hr & H).
    injection H as <- <-.
    apply regions_loop_spec in Hr as (rs' & -> & Hr).
    exists rs'. split; [|done].
    rewrite foldl_add_region, regions_set_regions. simpl.
    apply set_regions_twice.
  - intros (rs & -> & H).
    assert (regions_loop rec (regions op) [] s = Return (rs, s')) as Hr.
    { apply regions_loop_spec. by exists rs. }
    rewrite (wbind_Return _ _ _ _ _ Hr). unfold wret.
    rewrite foldl_add_region, regions_set_regions. simpl.
    by rewrite set_regions_twice.
Qed.

End LoopFacts.

(** ** One level of [rewrite_op] *)

Section Unfold.

Variable p : RewritePattern.
Variable wrf : bool.

(** [rewrite_op] with one more level of budget, step by step. *)
Lemma rewrite_op_unfold fuel op s :
  rewrite_op p wrf (S fuel) op s =
  match pre_stage p wrf fuel op s with
  | Return (op1, s1) =>
      match match_and_rewrite p op1 (get_new_operands (updater s1) op1) with
      | Some a =>
          match bookkeep_results (updater s1) op1 a with
          | Return u' =>
              extend_loop (rewrite_op p wrf fuel) (new_ops a) []
                (mkWalkState u' (offered (logged s1 op1)))
          | Raise e => Raise e
          | OutOfFuel => OutOfFuel
          end
      | None =>
          if wrf
          then Return ([update_operands (updater s1) op1], logged s1 op1)
          else
            match rewrite_op_regions p wrf fuel
                    (update_operands (updater s1) op1) (logged s1 op1) with
            | Return (op2, s2) => Return ([op2], s2)
            | Raise e => Raise e
            | OutOfFuel => OutOfFuel
            end
      end
  | Raise e => Raise e
  | OutOfFuel => OutOfFuel
  end.
Proof.
  simpl.
  unfold rewrite_op_body, pre_stage, rewrite_op_regions, wbind, offer,
    with_updater, rebind, wret, logged.
  destruct wrf; simpl.
  - destruct (rewrite_op_regions_with _ op s) as [[op1 s1]|e|]; [|done..].
    simpl. destruct (match_and_rewrite p op1 _) as [a|]; [|done].
    cbn [updater offered].
    by destruct (bookkeep_results (updater s1) op1 a).
  - destruct (match_and_rewrite p op _) as [a|]; cbn [updater offered].
    + by destruct (bookkeep_results (updater s) op a).
    + by destruct (rewrite_op_regions_with _ _ _) as [[op2 s2]|e|].
Qed.

End Unfold.

(** ** The call history only grows *)

Lemma log_extends_refl s : log_extends s s.
Proof. exists []. by rewrite app_nil_r. Qed.

Lemma log_extends_trans s1 s2 s3 :
  log_extends s1 s2 -> log_extends s2 s3 -> log_extends s1 s3.
Proof.
  intros [l1 H1] [l2 H2]. exists (l1 ++ l2).
  by rewrite H2, H1, app_assoc.
Qed.

Lemma walk_each_log {A B} (f : A -> Walk B) l s out s' :
  (forall a s b s', f a s = Return (b, s') -> log_extends s s') ->
  walk_each f l s out s' -> log_extends s s'.
Proof.
  intros Hf H. induction H as [s|a l s b s1 out s2 Ha H IH].
  - apply log_extends_refl.
  - eapply log_extends_trans; [by eapply Hf|done].
Qed.

Lemma rewrite_each_log rec l s out s' :
  (forall o s r s', rec o s = Return (r, s') -> log_extends s s') ->
  rewrite_each rec l s out s' -> log_extends s s'.
Proof.
  intros Hf H. induction H as [s|a l s b s1 out s2 Ha H IH].
  - apply log_extends_refl.
  - eapply log_extends_trans; [by eapply Hf|done].
Qed.

Lemma rewrite_op_regions_with_log rec op s op' s' :
  (forall o s r s', rec o s = Return (r, s') -> log_extends s s') ->
  rewrite_op_regions_with rec op s = Return (op', s') -> log_extends s s'.
Proof.
  intros Hrec H. apply rewrite_op_regions_with_spec in H as (rs & _ & H).
  eapply walk_each_log; [|exact H].
  intros r s0 r' s0' Hr. apply region_loop_spec in Hr as (bs & _ & Hr).
  eapply walk_each_log; [|exact Hr].
  intros b s1 b' s1' Hb. apply block_loop_spec in Hb as (out & _ & Hb).
  by eapply rewrite_each_log.
Qed.

Lemma logged_extends s op : log_extends s (logged s op).
Proof. by eexists. Qed.

Lemma rewrite_op_log p wrf fuel op s res s' :
  rewrite_op p wrf fuel op s = Return (res, s') -> log_extends s s'.
Proof.
  revert op s res s'. induction fuel as [|fuel IH]; intros op s res s' H.
  - done.
  - rewrite rewrite_op_unfold in H.
    assert (forall op s op1 s1, pre_stage p wrf fuel op s = Return (op1, s1) ->
                                log_extends s s1) as Hpre.
    { intros o s0 o1 s1. unfold pre_stage. destruct wrf.
      - apply rewrite_op_regions_with_log, IH.
      - unfold wret. intros [= <- <-]. apply log_extends_refl. }
    destruct (pre_stage p wrf fuel op s) as [[op1 s1]|e|] eqn:Hp; [|done..].
    apply Hpre in Hp. eapply log_extends_trans; [exact Hp|].
    eapply log_extends_trans; [apply (logged_extends s1 op1)|].
    destruct (match_and_rewrite p op1 _) as [a|].
    + destruct (bookkeep_results (updater s1) op1 a) as [u'| |]; [|done..].
      apply extend_loop_spec in H as (out & _ & H).
      apply (rewrite_each_log _ _ _ _ _ IH) in H.
      destruct H as [l Hl]. exists l. by rewrite Hl.
    + destruct wrf.
      * injection H as <- <-. apply log_extends_refl.
      * destruct (rewrite_op_regions p false fuel _ _) as [[op2 s2]|e|] eqn:Hr;
          [|done..].
        injection H as <- <-.
        eapply rewrite_op_regions_with_log; [|exact Hr]. apply IH.
Qed.

(** ** More budget does not change what a walk does *)

Lemma walk_le_refl {A} (m : Walk A) : walk_le m m.
Proof. by intros s _. Qed.

Lemma walk_le_bind {A B} (m m' : Walk A) (f f' : A -> Walk B) :
  walk_le m m' -> (forall a, walk_le (f a) (f' a)) ->
  walk_le (wbind m f) (wbind m' f').
Proof.
  intros Hm Hf s H. unfold wbind in *.
  destruct (m s) as [[a s1]|e|] eqn:E.
  - rewrite Hm by (by rewrite E). rewrite E. by apply Hf.
  - rewrite Hm by (by rewrite E). by rewrite E.
  - done.
Qed.

Section Budget.

Variables rec rec' : Operation -> Walk (list Operation).
Hypothesis Hrec : forall o, walk_le (rec o) (rec' o).

Lemma walk_le_extend_loop todo acc :
  walk_le (extend_loop rec todo acc) (extend_loop rec' todo acc).
Proof using Hrec.
  revert acc. induction todo as [|o todo IH]; intros acc; simpl.
  - apply walk_le_refl.
  - apply walk_le_bind; [apply Hrec|]. intros r. apply IH.
Qed.

Lemma walk_le_block_loop todo b :
  walk_le (block_loop rec todo b) (block_loop rec' todo b).
Proof using Hrec.
  revert b. induction todo as [|o todo IH]; intros b; simpl.
  - apply walk_le_refl.
  - apply walk_le_bind; [apply Hrec|]. intros r. apply IH.
Qed.

Lemma walk_le_region_loop todo r :
  walk_le (region_loop rec todo r) (region_loop rec' todo r).
Proof using Hrec.
  revert r. induction todo as [|b todo IH]; intros r; simpl.
  - apply walk_le_refl.
  - apply walk_le_bind; [apply walk_le_block_loop|]. intros nb. apply IH.
Qed.

Lemma walk_le_regions_loop todo acc :
  walk_le (regions_loop rec todo acc) (regions_loop rec' todo acc).
Proof using Hrec.
  revert acc. induction todo as [|r todo IH]; intros acc; simpl.
  - apply walk_le_refl.
  - apply walk_le_bind; [apply walk_le_region_loop|]. intros nr. apply IH.
Qed.

Lemma walk_le_rewrite_op_regions_with op :
  walk_le (rewrite_op_regions_with rec op) (rewrite_op_regions_with rec' op).
Proof using Hrec.
  unfold rewrite_op_regions_with.
  apply walk_le_bind; [apply walk_le_regions_loop|].
  intros rs. apply walk_le_refl.
Qed.

Lemma walk_le_rewrite_op_body p wrf op :
  walk_le (rewrite_op_body p wrf rec op) (rewrite_op_body p wrf rec' op).
Proof using Hrec.
  unfold rewrite_op_body. apply walk_le_bind.
  { destruct wrf; [apply walk_le_rewrite_op_regions_with|apply walk_le_refl]. }
  intros op1. apply walk_le_bind; [apply walk_le_refl|].
  intros [a|].
  - apply walk_le_bind; [apply walk_le_refl|].
    intros _. apply walk_le_extend_loop.
  - apply walk_le_bind; [apply walk_le_refl|].
    intros op2. apply walk_le_bind; [|intros; apply walk_le_refl].
    destruct wrf; simpl;
      [apply walk_le_refl|apply walk_le_rewrite_op_regions_with].
Qed.

End Budget.

Lemma rewrite_op_fuel_S p wrf fuel op :
  walk_le (rewrite_op p wrf fuel op) (rewrite_op p wrf (S fuel) op).
Proof.
  revert op. induction fuel as [|fuel IH]; intros op.
  - by intros s H.
  - change (walk_le (rewrite_op_body p wrf (rewrite_op p wrf fuel) op)
                    (rewrite_op_body p wrf (rewrite_op p wrf (S fuel)) op)).
    by apply walk_le_rewrite_op_body.
Qed.

(** Once [rewrite_op] returns or raises within a budget, it does the same
    with every larger budget. *)
Lemma rewrite_op_fuel_mono p wrf fuel fuel' op :
  fuel <= fuel' ->
  walk_le (rewrite_op p wrf fuel op) (rewrite_op p wrf fuel' op).
Proof.
  induction 1 as [|fuel' Hle IH].
  - apply walk_le_refl.
  - intros s H. rewrite rewrite_op_fuel_S; rewrite IH; done.
Qed.

(** ** A walk in which the pattern never matches *)

Lemma max_list_map_le {A} (f : A -> nat) (l : list A) (n : nat) (x : A) :
  max_list (map f l) <= n -> x ∈ l -> f x <= n.
Proof.
  intros Hmax Hx.
  assert (f x ∈ map f l) as Hin by (by apply list_elem_of_fmap_2).
  apply max_list_elem_of_le in Hin. lia.
Qed.

Lemma quiet_wret {A} (a : A) s : quiet (wret a) s a [].
Proof. exists []. unfold wret. rewrite app_nil_r. by destruct s. Qed.

Lemma quiet_bind {A B} (m : Walk A) (f : A -> Walk B) s a ids1 b ids2 :
  quiet m s a ids1 ->
  (forall s1, updater s1 = updater s -> quiet (f a) s1 b ids2) ->
  quiet (wbind m f) s b (ids1 ++ ids2).
Proof.
  intros (l1 & H1 & <-) Hf.
  destruct (Hf (mkWalkState (updater s) (offered s ++ l1)) eq_refl)
    as (l2 & H2 & <-).
  exists (l1 ++ l2). split.
  - rewrite (wbind_Return _ _ _ _ _ H1), H2. simpl. by rewrite app_assoc.
  - unfold offered_ids. by rewrite map_app.
Qed.

Section NeverMatch.

Variable p : RewritePattern.
Variable wrf : bool.
Hypothesis Hnever : forall o xs, match_and_rewrite p o xs = None.

Variable rec : Operation -> Walk (list Operation).
Variable n : nat.
Hypothesis Hrec :
  forall o s, depth o <= n ->
              quiet (rec o) s [rebuilt (updater s) o] (visit_order wrf o).

Lemma quiet_block_loop os b s :
  max_list (map depth os) <= n ->
  quiet (block_loop rec os b) s
        (add_ops b (map (rebuilt (updater s)) os))
        (concat (map (visit_order wrf) os)).
Proof using Hrec.
  revert b s. induction os as [|o os IH]; intros b s Hd; simpl in *.
  - rewrite add_ops_nil. apply quiet_wret.
  - eapply quiet_bind; [apply Hrec; lia|].
    intros s1 Hs1. rewrite <- Hs1.
    replace (add_ops b (rebuilt (updater s1) o ::
                        map (rebuilt (updater s1)) os))
      with (add_ops (add_ops b [rebuilt (updater s1) o])
                    (map (rebuilt (updater s1)) os))
      by (by rewrite add_ops_add_ops).
    apply IH. lia.
Qed.

Lemma quiet_region_loop bs r s :
  max_list (map block_depth bs) <= n ->
  quiet (region_loop rec bs r) s
        (mkRegion (blocks r ++ map (rebuilt_block (updater s)) bs))
        (concat (map (block_visit_order wrf) bs)).
Proof using Hrec.
  revert r s. induction bs as [|b bs IH]; intros r s Hd; simpl in *.
  - rewrite app_nil_r. destruct r. apply quiet_wret.
  - replace (block_visit_order wrf b)
      with (concat (map (visit_order wrf) (ops b)))
      by (by destruct b, wrf).
    eapply quiet_bind.
    + apply (quiet_block_loop (ops b) Block_new s). destruct b. simpl in *. lia.
    + intros s1 Hs1. rewrite <- Hs1.
      replace (blocks r ++ rebuilt_block (updater s1) b ::
               map (rebuilt_block (updater s1)) bs)
        with (blocks (add_block r
                (add_ops Block_new (map (rebuilt (updater s1)) (ops b)))) ++
              map (rebuilt_block (updater s1)) bs).
      * apply IH. lia.
      * simpl. rewrite <- app_assoc. by destruct b.
Qed.

Lemma quiet_regions_loop rs acc s :
  max_list (map region_depth rs) <= n ->
  quiet (regions_loop rec rs acc) s
        (acc ++ map (rebuilt_region (updater s)) rs)
        (concat (map (region_visit_order wrf) rs)).
Proof using Hrec.
  revert acc s. induction rs as [|r rs IH]; intros acc s Hd; simpl in *.
  - rewrite app_nil_r. apply quiet_wret.
  - replace (region_visit_order wrf r)
      with (concat (map (block_visit_order wrf) (blocks r)))
      by (by destruct r, wrf).
    eapply quiet_bind.
    + apply (quiet_region_loop (blocks r) Region_new s).
      destruct r. simpl in *. lia.
    + intros s1 Hs1. rewrite <- Hs1.
      replace (acc ++ rebuilt_region (updater s1) r ::
               map (rebuilt_region (updater s1)) rs)
        with ((acc ++ [mkRegion (blocks Region_new ++
                 map (rebuilt_block (updater s1)) (blocks r))]) ++
              map (rebuilt_region (updater s1)) rs).
      * apply IH. lia.
      * rewrite <- app_assoc. by destruct r.
Qed.

Lemma quiet_rewrite_op_regions_with op s :
  depth op <= S n ->
  quiet (rewrite_op_regions_with rec op) s
        (set_regions op (map (rebuilt_region (updater s)) (regions op)))
        (concat (map (region_visit_order wrf) (regions op))).
Proof using Hrec.
  intros Hd. unfold rewrite_op_regions_with.
  rewrite <- (app_nil_r (concat _)).
  eapply quiet_bind.
  - apply quiet_regions_loop. destruct op. simpl in *. lia.
  - intros s1 Hs1. rewrite foldl_add_region, regions_set_regions,
      set_regions_twice. simpl. apply quiet_wret.
Qed.

Lemma region_visit_order_concat (b : bool) rg :
  concat (map (region_visit_order b) rg) =
  if b then concat (map region_postorder_ids rg)
  else concat (map region_preorder_ids rg).
Proof. by destruct b. Qed.

Lemma quiet_rewrite_op_body op s :
  depth op <= S n ->
  quiet (rewrite_op_body p wrf rec op) s
        [rebuilt (updater s) op] (visit_order wrf op).
Proof using Hrec Hnever.
  intros Hd.
  destruct (quiet_rewrite_op_regions_with op s Hd) as (l1 & H1 & Hl1).
  destruct (quiet_rewrite_op_regions_with
              (update_operands (updater s) op) (logged s op))
    as (l2 & H2 & Hl2).
  { destruct op; simpl in *. lia. }
  rewrite region_visit_order_concat in Hl1, Hl2.
  unfold quiet, rewrite_op_body, wbind, offer, rebind, wret.
  destruct wrf.
  - rewrite H1. cbn [updater offered negb]. rewrite Hnever.
    eexists. split.
    + rewrite <- app_assoc. destruct op. reflexivity.
    + unfold offered_ids in *. rewrite map_app, Hl1. by destruct op.
  - rewrite Hnever. cbn [updater offered negb].
    unfold logged in H2. rewrite H2. cbn [updater offered].
    eexists. split.
    + rewrite <- app_assoc. destruct op. reflexivity.
    + unfold offered_ids in *. simpl. rewrite Hl2. by destruct op.
Qed.

End NeverMatch.

(** With a pattern that never matches and a budget of at least the nesting
    depth, [rewrite_op] returns the one operation [rebuilt], leaves the
    updater as it is and has called the pattern on every operation of the
    tree, in [visit_order]. *)
Lemma never_match_rewrite_op p wrf fuel op s :
  (forall o xs, match_and_rewrite p o xs = None) ->
  depth op <= fuel ->
  quiet (rewrite_op p wrf fuel op) s
        [rebuilt (updater s) op] (visit_order wrf op).
Proof.
  intros Hnever. revert op s. induction fuel as [|fuel IH]; intros op s Hd.
  - destruct op; simpl in Hd; lia.
  - simpl. by apply quiet_rewrite_op_body with (n := fuel).
Qed.

(** Without block arguments and with an empty updater, [rebuilt] changes
    nothing. *)
Lemma rebuilt_empty_id_depth n op :
  depth op <= n -> no_block_args op = true ->
  rebuilt (mkOperandUpdater ∅) op = op.
Proof.
  revert op. induction n as [|n IH]; intros op Hd Hna.
  - destruct op; simpl in Hd; lia.
  - destruct op as [i k xs rs rg a]. simpl in *. f_equal.
    + clear. induction xs as [|x xs IHx]; simpl; [done|].
      by rewrite get_new_value_empty, IHx.
    + assert (max_list (map region_depth rg) <= n) as Hrg by lia. clear Hd.
      induction rg as [|[bs] rg IHrg]; simpl in *; [done|].
      apply andb_prop in Hna as [Hbs Hna].
      f_equal; [|apply IHrg; [done|lia]]. f_equal.
      assert (max_list (map block_depth bs) <= n) as Hb by lia. clear Hrg IHrg.
      induction bs as [|[ar os] bs IHbs]; simpl in *; [done|].
      apply andb_prop in Hbs as [Hos Hbs].
      destruct ar; [|done].
      f_equal; [|apply IHbs; [done|lia]]. f_equal.
      assert (max_list (map depth os) <= n) as Ho by lia. clear Hb IHbs.
      induction os as [|o os IHos]; simpl in *; [done|].
      apply andb_prop in Hos as [Ho1 Hos].
      f_equal; [apply IH; [lia|done]|apply IHos; [done|lia]].
Qed.

Lemma rebuilt_empty_id op :
  no_block_args op = true -> rebuilt (mkOperandUpdater ∅) op = op.
Proof. by apply (rebuilt_empty_id_depth (depth op)). Qed.

(** ** Fields that a walk leaves alone *)

Lemma set_regions_fields (o : Operation) (rg : list Region) :
  op_id (set_regions o rg) = op_id o /\
  kind (set_regions o rg) = kind o /\
  operands (set_regions o rg) = operands o /\
  results (set_regions o rg) = results o /\
  attributes (set_regions o rg) = attributes o.
Proof. by destruct o. Qed.

Lemma update_operands_fields (u : OperandUpdater) (o : Operation) :
  op_id (update_operands u o) = op_id o /\
  kind (update_operands u o) = kind o /\
  operands (update_operands u o) = map (get_new_value u) (operands o) /\
  results (update_operands u o) = results o /\
  regions (update_operands u o) = regions o /\
  attributes (update_operands u o) = attributes o.
Proof. by destruct o. Qed.

(** [rewrite_op_regions] changes the regions of the operation only. *)
Lemma rewrite_op_regions_frame p wrf fuel op s op' s' :
  rewrite_op_regions p wrf fuel op s = Return (op', s') ->
  op_id op' = op_id op /\ kind op' = kind op /\
  operands op' = operands op /\ results op' = results op /\
  attributes op' = attributes op.
Proof.
  intros H. apply rewrite_op_regions_with_spec in H as (rs & -> & _).
  apply set_regions_fields.
Qed.

Lemma pre_stage_frame p wrf fuel op s op1 s1 :
  pre_stage p wrf fuel op s = Return (op1, s1) ->
  op_id op1 = op_id op /\ kind op1 = kind op /\
  operands op1 = operands op /\ results op1 = results op /\
  attributes op1 = attributes op.
Proof.
  unfold pre_stage. destruct wrf.
  - apply rewrite_op_regions_frame.
  - by intros [= <- <-].
Qed.

(** ** The blocks that [rewrite_op_regions] builds *)

Lemma walk_each_Forall {A B} (f : A -> Walk B) (P : B -> Prop) l s out s' :
  (forall a s b s', f a s = Return (b, s') -> P b) ->
  walk_each f l s out s' -> Forall P out.
Proof.
  intros Hf H. induction H as [s|a l s b s1 out s2 Ha H IH].
  - constructor.
  - constructor; [by eapply Hf|done].
Qed.

Lemma walk_each_length {A B} (f : A -> Walk B) l s out s' :
  walk_each f l s out s' -> length out = length l.
Proof. induction 1; simpl; by f_equal. Qed.

(** Whatever the old blocks carry, the blocks of the new regions have no
    block arguments. *)
Lemma rewrite_op_regions_no_block_args p wrf fuel op s op' s' :
  rewrite_op_regions p wrf fuel op s = Return (op', s') ->
  length (regions op') = length (regions op) /\
  Forall (fun r => Forall (fun b => args b = []) (blocks r)) (regions op').
Proof.
  intros H. apply rewrite_op_regions_with_spec in H as (rs & -> & H).
  rewrite regions_set_regions. split.
  - by eapply walk_each_length.
  - eapply walk_each_Forall; [|exact H].
    intros r s0 r' s0' Hr. apply region_loop_spec in Hr as (bs & -> & Hr).
    simpl. eapply walk_each_Forall; [|exact Hr].
    intros b s1 b' s1' Hb. by apply block_loop_spec in Hb as (out & -> & _).
Qed.

(** ** An exception leaves every loop of the walker *)

Section Abort.

Variable rec : Operation -> Walk (list Operation).

Lemma extend_loop_raise pre o post acc s out s1 e :
  rewrite_each rec pre s out s1 -> rec o s1 = Raise e ->
  extend_loop rec (pre ++ o :: post) acc s = Raise e.
Proof.
  intros H He. revert acc.
  induction H as [s|a l s r s1 out s2 Ha H IH]; intros acc; simpl.
  - by rewrite (wbind_Raise _ _ _ _ He).
  - rewrite (wbind_Return _ _ _ _ _ Ha). by apply IH.
Qed.

Lemma block_loop_raise pre o post b s out s1 e :
  rewrite_each rec pre s out s1 -> rec o s1 = Raise e ->
  block_loop rec (pre ++ o :: post) b s = Raise e.
Proof.
  intros H He. revert b.
  induction H as [s|a l s r s1 out s2 Ha H IH]; intros b; simpl.
  - by rewrite (wbind_Raise _ _ _ _ He).
  - rewrite (wbind_Return _ _ _ _ _ Ha). by apply IH.
Qed.

Lemma region_loop_raise pre b post r s out s1 e :
  walk_each (rebuild_block rec) pre s out s1 ->
  rebuild_block rec b s1 = Raise e ->
  region_loop rec (pre ++ b :: post) r s = Raise e.
Proof.
  intros H He. revert r.
  induction H as [s|a l s nb s1 out s2 Ha H IH]; intros r; simpl.
  - by rewrite (wbind_Raise _ _ _ _ He).
  - unfold rebuild_block in Ha. rewrite (wbind_Return _ _ _ _ _ Ha).
    by apply IH.
Qed.

Lemma regions_loop_raise pre r post acc s out s1 e :
  walk_each (rebuild_region rec) pre s out s1 ->
  rebuild_region rec r s1 = Raise e ->
  regions_loop rec (pre ++ r :: post) acc s = Raise e.
Proof.
  intros H He. revert acc.
  induction H as [s|a l s nr s1 out s2 Ha H IH]; intros acc; simpl.
  - by rewrite (wbind_Raise _ _ _ _ He).
  - unfold rebuild_region in Ha. rewrite (wbind_Return _ _ _ _ _ Ha).
    by apply IH.
Qed.

Lemma rewrite_op_regions_with_raise op s e :
  regions_loop rec (regions op) [] s = Raise e ->
  rewrite_op_regions_with rec op s = Raise e.
Proof. intros H. unfold rewrite_op_regions_with. by apply wbind_Raise. Qed.

End Abort.

(** ** [rewrite_module] *)

Lemma rewrite_module_raise p wrf fuel op s e :
  rewrite_op p wrf fuel op s = Raise e ->
  rewrite_module p wrf fuel op s = Raise e.
Proof. intros H. unfold rewrite_module. by apply wbind_Raise. Qed.

(** A single rewritten operation is looked up at index 1, past the end of the
    list. *)
Lemma rewrite_module_one_result p wrf fuel op s o s' :
  rewrite_op p wrf fuel op s = Return ([o], s') ->
  rewrite_module p wrf fuel op s = Raise IndexError.
Proof.
  intros H. unfold rewrite_module. by rewrite (wbind_Return _ _ _ _ _ H).
Qed.

Lemma rewrite_module_never_returns p wrf fuel op s r :
  rewrite_module p wrf fuel op s <> Return r.
Proof.
  unfold rewrite_module, wbind.
  destruct (rewrite_op p wrf fuel op s) as [[l s1]|e|]; [|done..].
  destruct (decide (length l = 1)) as [Hl|Hl]; [|done].
  destruct l as [|o [|o' l]]; done.
Qed.

(** * The claims *)

(** C1 (the code departs from it): [rewrite_module] is to return the
    rewritten module when [rewrite_op] yields exactly one operation of the
    module kind.  On the empty module and a pattern that never matches,
    [rewrite_op] yields exactly the module, and [rewrite_module] raises
    [IndexError]: the single operation is read at index 1. *)
Theorem rewrite_module_single_module_raises_IndexError :
  rewrite_op never_matches false 1 empty_module empty_state =
    Return ([empty_module], logged empty_state empty_module) /\
  is_ModuleOp empty_module = true /\
  rewrite_module never_matches false 1 empty_module empty_state =
    Raise IndexError.
Proof.
  assert (rewrite_op never_matches false 1 empty_module empty_state =
          Return ([empty_module], logged empty_state empty_module)) as H
    by reflexivity.
  split; [exact H|]. split; [reflexivity|].
  exact (rewrite_module_one_result _ _ _ _ _ _ _ H).
Qed.

(** C2: constructing a [PatternRewriteWalker] raises at construction time,
    for every pattern and every choice of [walk_regions_first], because the
    default construction of its [OperandUpdater] calls a dictionary; no
    walker comes out of the constructor. *)
Theorem PatternRewriteWalker_init_raises (p : RewritePattern)
    (wrf : option bool) :
  OperandUpdater_init None = Raise TypeError /\
  PatternRewriteWalker_init p wrf = Raise TypeError /\
  (forall self, PatternRewriteWalker_init p wrf <> Return self).
Proof. split; [reflexivity|]. split; [reflexivity|]. by intros self. Qed.

(** C3 (the code departs from it): the rebuilt blocks are to carry the block
    arguments of the blocks they replace.  The entry block of [func_op] has
    the block argument 7, which [return_op] uses; after [rewrite_op_regions]
    the block of the new region holds [return_op] and has no block
    argument. *)
Theorem rewrite_op_regions_drops_block_args :
  regions func_op = [mkRegion [mkBlock [7] [return_op]]] /\
  operands return_op = [7] /\
  forall wrf,
    rewrite_op_regions never_matches wrf 1 func_op empty_state =
    Return (set_regions func_op [mkRegion [mkBlock [] [return_op]]],
            logged empty_state return_op).
Proof. split; [reflexivity|]. split; [reflexivity|]. by intros []. Qed.

(** C4 (the code departs from it): a walk with a pattern that never matches
    is to return a module structurally equal to its input, block arguments
    included.  For the module [func_module], whose function has a block
    argument, the walk returns one module that differs from the input: it is
    the input without the block argument. *)
Theorem no_match_walk_changes_func_module (wrf : bool) :
  exists m' s',
    rewrite_op never_matches wrf 3 func_module (start
      (mkPatternRewriteWalker never_matches wrf (mkOperandUpdater ∅))) =
      Return ([m'], s') /\
    m' = mkOperation 0 ModuleOp [] []
           [mkRegion [mkBlock []
              [mkOperation 1 (OtherOp "func.func") [] []
                 [mkRegion [mkBlock [] [return_op]]] ∅]]] ∅ /\
    m' <> func_module.
Proof.
  destruct wrf; do 2 eexists; (split; [reflexivity|]); split; done.
Qed.

(** C5: when the pattern matches an operation with k > 0 results and the
    action has a number of replacement results other than k,
    [bookkeep_results] raises [AssertionError], whatever the updater holds;
    [rewrite_op] on that operation raises it, and so does [rewrite_module]:
    the walk is aborted. *)
Theorem bookkeep_results_count_mismatch_aborts
    (p : RewritePattern) (wrf : bool) (fuel : nat) (op : Operation)
    (s : WalkState) (op1 : Operation) (s1 : WalkState) (a : RewriteAction) :
  pre_stage p wrf fuel op s = Return (op1, s1) ->
  match_and_rewrite p op1 (get_new_operands (updater s1) op1) = Some a ->
  0 < length (results op1) ->
  length (new_results a) <> length (results op1) ->
  results op1 = results op /\
  (forall u, bookkeep_results u op1 a = Raise AssertionError) /\
  rewrite_op p wrf (S fuel) op s = Raise AssertionError /\
  rewrite_module p wrf (S fuel) op s = Raise AssertionError.
Proof.
  intros Hpre Hmatch Hk Hne.
  assert (forall u, bookkeep_results u op1 a = Raise AssertionError) as Hb.
  { intros u. unfold bookkeep_results.
    destruct (decide (length (results op1) = 0)); [lia|].
    destruct (decide (length (results op1) = length (new_results a)));
      [congruence|done]. }
  assert (rewrite_op p wrf (S fuel) op s = Raise AssertionError) as Hr.
  { by rewrite rewrite_op_unfold, Hpre, Hmatch, Hb. }
  split; [by apply pre_stage_frame in Hpre as (_ & _ & _ & ? & _)|].
  split; [exact Hb|]. split; [exact Hr|].
  by apply rewrite_module_raise.
Qed.

Lemma bookkeep_results_count_mismatch_aborts_witness :
  pre_stage add_to_mul_two_results false 0 add_op empty_state =
    Return (add_op, empty_state) /\
  match_and_rewrite add_to_mul_two_results add_op
    (get_new_operands (updater empty_state) add_op) =
    Some (RewriteAction_init [mul_op] (Some [10; 10])) /\
  0 < length (results add_op) /\
  length (new_results (RewriteAction_init [mul_op] (Some [10; 10]))) <>
    length (results add_op) /\
  rewrite_op add_to_mul_two_results false 1 add_op empty_state =
    Raise AssertionError /\
  rewrite_module add_to_mul_two_results false 1 add_op empty_state =
    Raise AssertionError.
Proof.
  pose proof (bookkeep_results_count_mismatch_aborts
                add_to_mul_two_results false 0 add_op empty_state
                add_op empty_state
                (RewriteAction_init [mul_op] (Some [10; 10]))) as H.
  split; [reflexivity|]. split; [reflexivity|].
  split; [simpl; lia|]. split; [simpl; lia|].
  apply H; [reflexivity|reflexivity|simpl; lia|simpl; lia].
Defined.

(** C6: [get_new_value] returns the recorded replacement of a value that is a
    key of the mapping and the value itself otherwise; it looks up once: with
    [a] mapped to [b] and [b] mapped to [c] it returns [b] for [a].
    [get_new_operands] applies it to every operand, in order, and returns as
    many values as the operation has operands. *)
Theorem get_new_value_single_hop (u : OperandUpdater) (op : Operation) :
  (forall v, get_new_value u v =
             match result_mapping u !! v with Some r => r | None => v end) /\
  (forall m a b c,
     get_new_value (mkOperandUpdater (<[a := b]> (<[b := c]> m))) a = b) /\
  length (get_new_operands u op) = length (operands op) /\
  (forall i, get_new_operands u op !! i =
             get_new_value u <$> (operands op !! i)).
Proof.
  split; [apply get_new_value_lookup|]. split.
  { intros m a b c. unfold get_new_value. simpl.
    by rewrite lookup_insert_eq. }
  unfold get_new_operands. split.
  - apply length_map.
  - intros i. apply list_lookup_fmap.
Qed.

(** C7: when the pattern matches with action [a], [rewrite_op] returns
    exactly when recording the substitution returns and the calls of
    [rewrite_op] on the operations of [a.new_ops], one after the other in
    their order and starting from the updater with the substitution
    recorded, all return; what it returns is their results concatenated.
    The substitution recorded maps the i-th result of the operation to the
    i-th replacement result. *)
Theorem rewrite_op_on_match
    (p : RewritePattern) (wrf : bool) (fuel : nat) (op : Operation)
    (s : WalkState) (op1 : Operation) (s1 : WalkState) (a : RewriteAction) :
  pre_stage p wrf fuel op s = Return (op1, s1) ->
  match_and_rewrite p op1 (get_new_operands (updater s1) op1) = Some a ->
  (forall res s',
     rewrite_op p wrf (S fuel) op s = Return (res, s') <->
     exists u',
       bookkeep_results (updater s1) op1 a = Return u' /\
       rewrite_each (rewrite_op p wrf fuel) (new_ops a)
         (mkWalkState u' (offered (logged s1 op1))) res s') /\
  (forall u' i o n,
     bookkeep_results (updater s1) op1 a = Return u' ->
     NoDup (results op1) ->
     results op1 !! i = Some o -> new_results a !! i = Some n ->
     get_new_value u' o = n).
Proof.
  intros Hpre Hmatch. split.
  - intros res s'. rewrite rewrite_op_unfold, Hpre, Hmatch.
    destruct (bookkeep_results (updater s1) op1 a) as [u'|e|].
    + rewrite extend_loop_spec. split.
      * intros (out & -> & H). by exists u'.
      * intros (u & [= <-] & H). by exists res.
    + split; [done|]. by intros (u & ? & _).
    + split; [done|]. by intros (u & ? & _).
  - intros u' i o n Hb Hnd Ho Hn.
    by apply (bookkeep_results_records _ _ _ _ i o n Hnd Hb).
Qed.

Lemma rewrite_op_on_match_witness :
  pre_stage add_to_mul false 1 add_op empty_state =
    Return (add_op, empty_state) /\
  match_and_rewrite add_to_mul add_op
    (get_new_operands (updater empty_state) add_op) =
    Some (RewriteAction_init [mul_op] None) /\
  rewrite_op add_to_mul false 2 add_op empty_state =
    Return ([mul_op],
            mkWalkState (mkOperandUpdater (<[9 := 10]> ∅))
                        [(add_op, [7; 8]); (mul_op, [7; 8])]).
Proof.
  pose proof (rewrite_op_on_match add_to_mul false 1 add_op empty_state
                add_op empty_state (RewriteAction_init [mul_op] None)) as H.
  split; [reflexivity|]. split; [reflexivity|].
  apply H; [reflexivity|reflexivity|].
  exists (mkOperandUpdater (<[9 := 10]> ∅)). split; [reflexivity|].
  apply (rewrite_each_cons _ mul_op [] _ [mul_op]
           (mkWalkState (mkOperandUpdater (<[9 := 10]> ∅))
                        [(add_op, [7; 8]); (mul_op, [7; 8])]) []);
    [reflexivity|constructor].
Defined.

Lemma after_offer_extends s op s' :
  log_extends (logged s op) s' ->
  exists later,
    offered s' = offered s ++ (op, get_new_operands (updater s) op) :: later.
Proof.
  intros [l Hl]. exists l. rewrite Hl. simpl. by rewrite <- app_assoc.
Qed.

Lemma walk_each_split {A B} (f : A -> Walk B) l1 a l2 s out s' :
  walk_each f (l1 ++ a :: l2) s out s' ->
  exists out1 sa b sb out2,
    walk_each f l1 s out1 sa /\ f a sa = Return (b, sb) /\
    walk_each f l2 sb out2 s'.
Proof.
  revert s out. induction l1 as [|x l1 IH]; intros s out H; simpl in H.
  - inversion H as [|? ? ? b s1 out' ? Ha Hrest]; subst.
    exists [], s, b, s1, out'. split; [constructor|done].
  - inversion H as [|? ? ? b s1 out' ? Hx Hrest]; subst.
    apply IH in Hrest as (out1 & sa & b' & sb & out2 & H1 & Ha & H2).
    exists (b :: out1), sa, b', sb, out2. split; [by econstructor|done].
Qed.

Lemma rewrite_each_split rec l1 o l2 s out s' :
  rewrite_each rec (l1 ++ o :: l2) s out s' ->
  exists out1 sa r sb out2,
    rewrite_each rec l1 s out1 sa /\ rec o sa = Return (r, sb) /\
    rewrite_each rec l2 sb out2 s'.
Proof.
  revert s out. induction l1 as [|x l1 IH]; intros s out H; simpl in H.
  - inversion H as [|? ? ? r s1 out' ? Ho Hrest]; subst.
    exists [], s, r, s1, out'. split; [constructor|done].
  - inversion H as [|? ? ? r s1 out' ? Hx Hrest]; subst.
    apply IH in Hrest as (out1 & sa & r' & sb & out2 & H1 & Ho & H2).
    exists (r ++ out1), sa, r', sb, out2. split; [by econstructor|done].
Qed.

Lemma rebuild_block_log p wrf fuel b s b' s' :
  rebuild_block (rewrite_op p wrf fuel) b s = Return (b', s') ->
  log_extends s s'.
Proof.
  intros H. apply block_loop_spec in H as (out & _ & H).
  eapply rewrite_each_log; [|exact H]. apply rewrite_op_log.
Qed.

Lemma rebuild_region_log p wrf fuel r s r' s' :
  rebuild_region (rewrite_op p wrf fuel) r s = Return (r', s') ->
  log_extends s s'.
Proof.
  intros H. apply region_loop_spec in H as (bs & _ & H).
  eapply walk_each_log; [|exact H]. apply rebuild_block_log.
Qed.

(** The call of the pattern that [rewrite_op] makes on the operation it is
    given: it follows the calls of the first step and precedes all others. *)
Lemma rewrite_op_own_call p wrf fuel o s res s' :
  rewrite_op p wrf fuel o s = Return (res, s') ->
  exists f o1 s1 later,
    fuel = S f /\
    pre_stage p wrf f o s = Return (o1, s1) /\
    log_extends s s1 /\
    offered s' =
      offered s1 ++ (o1, get_new_operands (updater s1) o1) :: later.
Proof.
  destruct fuel as [|f]; [done|]. intros H.
  rewrite rewrite_op_unfold in H.
  destruct (pre_stage p wrf f o s) as [[o1 s1]|e|] eqn:Hpre; [|done..].
  assert (log_extends s s1) as Hs1.
  { unfold pre_stage in Hpre. destruct wrf.
    - eapply rewrite_op_regions_with_log; [|exact Hpre].
      intros ????. apply rewrite_op_log.
    - injection Hpre as <- <-. apply log_extends_refl. }
  assert (log_extends (logged s1 o1) s') as Hl.
  { destruct (match_and_rewrite p o1 _) as [a|].
    - destruct (bookkeep_results (updater s1) o1 a) as [u'| |]; [|done..].
      apply extend_loop_spec in H as (out & _ & H).
      apply (rewrite_each_log _ _ _ _ _ (rewrite_op_log p wrf f)) in H.
      destruct H as [l Hl]. exists l. by rewrite Hl.
    - destruct wrf.
      + injection H as <- <-. apply log_extends_refl.
      + destruct (rewrite_op_regions p false f _ _) as [[o2 s2]|e|] eqn:Hr;
          [|done..].
        injection H as <- <-.
        eapply rewrite_op_regions_with_log; [|exact Hr].
        intros ????. apply rewrite_op_log. }
  apply after_offer_extends in Hl as [later Hl].
  by exists f, o1, s1, later.
Qed.

(** When [rewrite_op_regions] returns, the pattern has been called on every
    operation [t] that sits in a block of a region of the operation: the
    operation handed over has the identity and the kind of [t], and is [t]
    itself without [walk_regions_first]. *)
Lemma rewrite_op_regions_calls_nested p wrf fuel op s op' s'
    rs_pre rs_post bs_pre bs_post ar os_pre os_post t :
  regions op =
    rs_pre ++
    mkRegion (bs_pre ++ mkBlock ar (os_pre ++ t :: os_post) :: bs_post) ::
    rs_post ->
  rewrite_op_regions p wrf fuel op s = Return (op', s') ->
  exists before t1 st between,
    offered s' =
      offered s ++ before ++
      (t1, get_new_operands (updater st) t1) :: between /\
    op_id t1 = op_id t /\ kind t1 = kind t /\ results t1 = results t /\
    (wrf = false -> t1 = t).
Proof.
  intros Hrg H. unfold rewrite_op_regions in H.
  apply rewrite_op_regions_with_spec in H as (rs & _ & H). rewrite Hrg in H.
  apply walk_each_split in H
    as (out1 & sa & r' & sb & out2 & Hpre_r & Hr & Hpost_r).
  apply (walk_each_log _ _ _ _ _ (rebuild_region_log p wrf fuel)) in Hpre_r.
  apply (walk_each_log _ _ _ _ _ (rebuild_region_log p wrf fuel)) in Hpost_r.
  apply region_loop_spec in Hr as (bs & _ & Hr). simpl in Hr.
  apply walk_each_split in Hr
    as (bo1 & sc & b' & sd & bo2 & Hpre_b & Hb & Hpost_b).
  apply (walk_each_log _ _ _ _ _ (rebuild_block_log p wrf fuel)) in Hpre_b.
  apply (walk_each_log _ _ _ _ _ (rebuild_block_log p wrf fuel)) in Hpost_b.
  apply block_loop_spec in Hb as (out & _ & Hb). simpl in Hb.
  apply rewrite_each_split in Hb
    as (oo1 & s3 & r & s4 & oo2 & Hpre_o & Ht & Hpost_o).
  apply (rewrite_each_log _ _ _ _ _ (rewrite_op_log p wrf fuel)) in Hpre_o.
  apply (rewrite_each_log _ _ _ _ _ (rewrite_op_log p wrf fuel)) in Hpost_o.
  apply rewrite_op_own_call in Ht
    as (f & t1 & st & later & -> & Hpre_t & Hst & Hcall).
  assert (log_extends s st) as [before Hbefore].
  { eapply log_extends_trans; [exact Hpre_r|].
    eapply log_extends_trans; [exact Hpre_b|].
    eapply log_extends_trans; [exact Hpre_o|exact Hst]. }
  assert (log_extends s4 s') as [after Hafter].
  { eapply log_extends_trans; [exact Hpost_o|].
    eapply log_extends_trans; [exact Hpost_b|exact Hpost_r]. }
  exists before, t1, st, (later ++ after).
  split; [|split; [|split; [|split]]].
  - rewrite Hafter, Hcall, Hbefore. rewrite <- !app_assoc. by simpl.
  - by apply pre_stage_frame in Hpre_t as (? & _).
  - by apply pre_stage_frame in Hpre_t as (_ & ? & _).
  - by apply pre_stage_frame in Hpre_t as (_ & _ & _ & ? & _).
  - intros ->. unfold pre_stage, wret in Hpre_t. by injection Hpre_t as <- _.
Qed.

(** C8: let [t] be an operation in a block of a region of [op], and let the
    call of [rewrite_op] on [op] return.  With [walk_regions_first] the
    regions of [op] are rebuilt first, and the call of the pattern on [t]
    comes before the call on [op], which the pattern sees with its new
    regions.  Without it the call on [op] comes first; when the pattern did
    not match [op], the regions are rebuilt after it and the call on [t]
    follows the call on [op]; when it matched, the regions are not walked:
    only the new operations of the action are rewritten. *)
Theorem walk_regions_first_order
    (p : RewritePattern) (wrf : bool) (fuel : nat) (op : Operation)
    (s : WalkState) (res : list Operation) (s' : WalkState)
    (rs_pre rs_post : list Region) (bs_pre bs_post : list Block)
    (ar : list SSAValue) (os_pre os_post : list Operation)
    (t : Operation) :
  regions op =
    rs_pre ++
    mkRegion (bs_pre ++ mkBlock ar (os_pre ++ t :: os_post) :: bs_post) ::
    rs_post ->
  rewrite_op p wrf (S fuel) op s = Return (res, s') ->
  if wrf then
    exists op1 s1 before t1 st between later,
      rewrite_op_regions p true fuel op s = Return (op1, s1) /\
      op_id t1 = op_id t /\ kind t1 = kind t /\ results t1 = results t /\
      offered s1 =
        offered s ++ before ++
        (t1, get_new_operands (updater st) t1) :: between /\
      offered s' =
        offered s ++ before ++
        (t1, get_new_operands (updater st) t1) :: between ++
        (op1, get_new_operands (updater s1) op1) :: later
  else
    match match_and_rewrite p op (get_new_operands (updater s) op) with
    | None =>
        exists op2 before st between,
          rewrite_op_regions p false fuel
            (update_operands (updater s) op) (logged s op) =
            Return (op2, s') /\
          res = [op2] /\
          offered s' =
            offered s ++ (op, get_new_operands (updater s) op) :: before ++
            (t, get_new_operands (updater st) t) :: between
    | Some a =>
        exists u' later,
          bookkeep_results (updater s) op a = Return u' /\
          rewrite_each (rewrite_op p false fuel) (new_ops a)
            (mkWalkState u' (offered (logged s op))) res s' /\
          offered s' =
            offered s ++ (op, get_new_operands (updater s) op) :: later
    end.
Proof.
  intros Hrg H.
  destruct (rewrite_op_own_call _ _ _ _ _ _ _ H)
    as (f & o1 & s1 & later & [= <-] & Hpre & _ & Hown).
  rewrite rewrite_op_unfold in H. rewrite Hpre in H.
  unfold pre_stage in Hpre. destruct wrf.
  - destruct (rewrite_op_regions_calls_nested _ _ _ _ _ _ _ _ _ _ _ _ _ _ _
                Hrg Hpre)
      as (before & t1 & st & between & Hlog & Hid & Hk & Hres & _).
    exists o1, s1, before, t1, st, between, later.
    split; [done|]. split; [done|]. split; [done|]. split; [done|].
    split; [done|].
    rewrite Hown, Hlog. rewrite <- !app_assoc. by simpl.
  - unfold wret in Hpre. injection Hpre as <- <-.
    destruct (match_and_rewrite p op _) as [a|].
    + destruct (bookkeep_results (updater s) op a) as [u'| |]; [|done..].
      apply extend_loop_spec in H as (out & -> & H).
      by exists u', later.
    + destruct (rewrite_op_regions p false fuel _ _) as [[op2 s2]|e|] eqn:Hr;
        [|done..].
      injection H as <- <-.
      assert (regions (update_operands (updater s) op) =
              rs_pre ++
              mkRegion (bs_pre ++
                        mkBlock ar (os_pre ++ t :: os_post) :: bs_post) ::
              rs_post) as Hrg' by (by destruct op).
      destruct (rewrite_op_regions_calls_nested _ _ _ _ _ _ _ _ _ _ _ _ _ _ _
                  Hrg' Hr)
        as (before & t1 & st & between & Hlog & _ & _ & _ & Ht1).
      rewrite (Ht1 eq_refl) in Hlog.
      exists op2, before, st, between.
      split; [done|]. split; [done|].
      rewrite Hlog. simpl. by rewrite <- app_assoc.
Qed.

Lemma walk_regions_first_order_witness :
  (regions wrap_op =
     [] ++ mkRegion ([] ++ mkBlock [] ([] ++ add_op :: []) :: []) :: [] /\
   rewrite_op unwrap_and_mul true 3 wrap_op empty_state =
     Return ([],
             mkWalkState (mkOperandUpdater (<[9 := 10]> ∅))
               [(add_op, [7; 8]); (mul_op, [7; 8]);
                (set_regions wrap_op [mkRegion [mkBlock [] [mul_op]]], [])]) /\
   exists op1 s1 before t1 st between later,
     rewrite_op_regions unwrap_and_mul true 2 wrap_op empty_state =
       Return (op1, s1) /\
     op_id t1 = op_id add_op /\ kind t1 = kind add_op /\
     results t1 = results add_op /\
     offered s1 =
       offered empty_state ++ before ++
       (t1, get_new_operands (updater st) t1) :: between /\
     [(add_op, [7; 8]); (mul_op, [7; 8]);
      (set_regions wrap_op [mkRegion [mkBlock [] [mul_op]]], [])] =
       offered empty_state ++ before ++
       (t1, get_new_operands (updater st) t1) :: between ++
       (op1, get_new_operands (updater s1) op1) :: later) /\
  (regions add_module =
     [] ++
     mkRegion ([] ++
               mkBlock [] ([] ++ add_op ::
                           [mkOperation 6 (OtherOp "test.use") [9] [] [] ∅])
               :: []) :: [] /\
   rewrite_op unwrap_and_mul false 3 add_module empty_state =
     Return ([mkOperation 0 ModuleOp [] []
                [mkRegion [mkBlock []
                   [mul_op;
                    mkOperation 6 (OtherOp "test.use") [10] [] [] ∅]]] ∅],
             mkWalkState (mkOperandUpdater (<[9 := 10]> ∅))
               [(add_module, []); (add_op, [7; 8]); (mul_op, [7; 8]);
                (mkOperation 6 (OtherOp "test.use") [9] [] [] ∅, [10])]) /\
   exists op2 before st between,
     rewrite_op_regions unwrap_and_mul false 2
       (update_operands (updater empty_state) add_module)
       (logged empty_state add_module) =
       Return (op2,
               mkWalkState (mkOperandUpdater (<[9 := 10]> ∅))
                 [(add_module, []); (add_op, [7; 8]); (mul_op, [7; 8]);
                  (mkOperation 6 (OtherOp "test.use") [9] [] [] ∅, [10])]) /\
     [mkOperation 0 ModuleOp [] []
        [mkRegion [mkBlock []
           [mul_op; mkOperation 6 (OtherOp "test.use") [10] [] [] ∅]]] ∅] =
       [op2] /\
     [(add_module, []); (add_op, [7; 8]); (mul_op, [7; 8]);
      (mkOperation 6 (OtherOp "test.use") [9] [] [] ∅, [10])] =
       offered empty_state ++
       (add_module, get_new_operands (updater empty_state) add_module) ::
       before ++ (add_op, get_new_operands (updater st) add_op) :: between) /\
  (rewrite_op unwrap_and_mul false 3 wrap_op empty_state =
     Return ([], mkWalkState (mkOperandUpdater ∅) [(wrap_op, [])]) /\
   exists u' later,
     bookkeep_results (updater empty_state) wrap_op
       (RewriteAction_init [] None) = Return u' /\
     rewrite_each (rewrite_op unwrap_and_mul false 2)
       (new_ops (RewriteAction_init [] None))
       (mkWalkState u' (offered (logged empty_state wrap_op))) []
       (mkWalkState (mkOperandUpdater ∅) [(wrap_op, [])]) /\
     [(wrap_op, [])] =
       offered empty_state ++
       (wrap_op, get_new_operands (updater empty_state) wrap_op) :: later).
Proof.
  split; [|split].
  - split; [reflexivity|]. split; [reflexivity|].
    exact (walk_regions_first_order unwrap_and_mul true 2 wrap_op empty_state
             []
             (mkWalkState (mkOperandUpdater (<[9 := 10]> ∅))
                [(add_op, [7; 8]); (mul_op, [7; 8]);
                 (set_regions wrap_op [mkRegion [mkBlock [] [mul_op]]], [])])
             [] [] [] [] [] [] [] add_op eq_refl eq_refl).
  - split; [reflexivity|]. split; [reflexivity|].
    exact (walk_regions_first_order unwrap_and_mul false 2 add_module
             empty_state
             [mkOperation 0 ModuleOp [] []
                [mkRegion [mkBlock []
                   [mul_op;
                    mkOperation 6 (OtherOp "test.use") [10] [] [] ∅]]] ∅]
             (mkWalkState (mkOperandUpdater (<[9 := 10]> ∅))
                [(add_module, []); (add_op, [7; 8]); (mul_op, [7; 8]);
                 (mkOperation 6 (OtherOp "test.use") [9] [] [] ∅, [10])])
             [] [] [] [] [] []
             [mkOperation 6 (OtherOp "test.use") [9] [] [] ∅] add_op
             eq_refl eq_refl).
  - split; [reflexivity|].
    exact (walk_regions_first_order unwrap_and_mul false 2 wrap_op empty_state
             [] (mkWalkState (mkOperandUpdater ∅) [(wrap_op, [])])
             [] [] [] [] [] [] [] add_op eq_refl eq_refl).
Defined.

(** C9: when the pattern does not match, [rewrite_op] returns the one
    operation it was given: same identity, same kind, same results, same
    attributes, as many regions; its operands are the old operands looked up
    in the updater.  With [walk_regions_first] it returns at once; without,
    it returns when the rebuilding of the regions returns. *)
Theorem rewrite_op_on_no_match
    (p : RewritePattern) (wrf : bool) (fuel : nat) (op : Operation)
    (s : WalkState) (op1 : Operation) (s1 : WalkState) :
  pre_stage p wrf fuel op s = Return (op1, s1) ->
  match_and_rewrite p op1 (get_new_operands (updater s1) op1) = None ->
  rewrite_op p wrf (S fuel) op s =
    (if wrf
     then Return ([update_operands (updater s1) op1], logged s1 op1)
     else match rewrite_op_regions p wrf fuel
                  (update_operands (updater s1) op1) (logged s1 op1) with
          | Return (op2, s2) => Return ([op2], s2)
          | Raise e => Raise e
          | OutOfFuel => OutOfFuel
          end) /\
  (forall res s',
     rewrite_op p wrf (S fuel) op s = Return (res, s') ->
     exists op',
       res = [op'] /\
       op_id op' = op_id op /\ kind op' = kind op /\
       results op' = results op /\ attributes op' = attributes op /\
       operands op' = map (get_new_value (updater s1)) (operands op) /\
       length (regions op') = length (regions op)).
Proof.
  intros Hpre Hmatch.
  assert (rewrite_op p wrf (S fuel) op s =
          (if wrf
           then Return ([update_operands (updater s1) op1], logged s1 op1)
           else match rewrite_op_regions p wrf fuel
                        (update_operands (updater s1) op1) (logged s1 op1) with
                | Return (op2, s2) => Return ([op2], s2)
                | Raise e => Raise e
                | OutOfFuel => OutOfFuel
                end)) as Heq.
  { by rewrite rewrite_op_unfold, Hpre, Hmatch. }
  split; [exact Heq|].
  intros res s' H. rewrite Heq in H. clear Heq.
  unfold pre_stage in Hpre. destruct wrf.
  - injection H as <- <-. eexists. split; [reflexivity|].
    destruct (rewrite_op_regions_frame _ _ _ _ _ _ _ Hpre)
      as (Hi & Hk & Ho & Hr & Ha).
    apply rewrite_op_regions_no_block_args in Hpre as [Hl _].
    destruct (update_operands_fields (updater s1) op1)
      as (Hi' & Hk' & Ho' & Hr' & Hg' & Ha').
    rewrite Hi', Hk', Ho', Hr', Hg', Ha'. by rewrite Ho.
  - injection Hpre as <- <-.
    destruct (rewrite_op_regions p false fuel _ _) as [[op2 s2]|e|] eqn:Hrg;
      [|done..].
    injection H as <- <-. exists op2. split; [reflexivity|].
    destruct (rewrite_op_regions_frame _ _ _ _ _ _ _ Hrg)
      as (Hi & Hk & Ho & Hr & Ha).
    apply rewrite_op_regions_no_block_args in Hrg as [Hl _].
    destruct (update_operands_fields (updater s) op)
      as (Hi' & Hk' & Ho' & Hr' & Hg' & Ha').
    rewrite Hi, Hk, Ho, Hr, Ha, Hl. by rewrite Hg'.
Qed.

Lemma rewrite_op_on_no_match_witness :
  pre_stage add_to_mul false 1 func_op empty_state =
    Return (func_op, empty_state) /\
  match_and_rewrite add_to_mul func_op
    (get_new_operands (updater empty_state) func_op) = None /\
  rewrite_op add_to_mul false 2 func_op empty_state =
    Return ([set_regions func_op [mkRegion [mkBlock [] [return_op]]]],
            mkWalkState (mkOperandUpdater ∅)
              [(func_op, []); (return_op, [7])]).
Proof.
  pose proof (rewrite_op_on_no_match add_to_mul false 1 func_op empty_state
                func_op empty_state eq_refl eq_refl) as [H _].
  split; [reflexivity|]. split; [reflexivity|].
  rewrite H. reflexivity.
Defined.

(** C10: for an operation without results [bookkeep_results] returns without
    raising and leaves the updater as it is, whatever the replacement results
    of the action are and however many there are. *)
Theorem bookkeep_results_zero_results
    (u : OperandUpdater) (op : Operation) (a : RewriteAction) :
  length (results op) = 0 ->
  bookkeep_results u op a = Return u.
Proof.
  intros H. unfold bookkeep_results.
  by destruct (decide (length (results op) = 0)).
Qed.

Lemma bookkeep_results_zero_results_witness :
  length (results erase_op) = 0 /\
  new_results (RewriteAction_init [] (Some [7])) = [7] /\
  bookkeep_results (mkOperandUpdater ∅) erase_op
    (RewriteAction_init [] (Some [7])) = Return (mkOperandUpdater ∅).
Proof.
  split; [reflexivity|]. split; [reflexivity|].
  apply (bookkeep_results_zero_results (mkOperandUpdater ∅) erase_op
           (RewriteAction_init [] (Some [7]))).
  reflexivity.
Defined.

(** ** The walk that matches nothing, in full *)

(** With a pattern that never matches, an updater without entries and a
    budget of at least the nesting depth, the walk of an operation whose
    blocks have no block arguments returns the operation as it was. *)
Lemma no_match_walk_without_block_args p wrf fuel op log0 :
  (forall o xs, match_and_rewrite p o xs = None) ->
  depth op <= fuel ->
  no_block_args op = true ->
  exists log,
    rewrite_op p wrf fuel op (mkWalkState (mkOperandUpdater ∅) log0) =
      Return ([op], mkWalkState (mkOperandUpdater ∅) (log0 ++ log)) /\
    offered_ids log = visit_order wrf op.
Proof.
  intros Hnever Hd Hna.
  destruct (never_match_rewrite_op p wrf fuel op
              (mkWalkState (mkOperandUpdater ∅) log0) Hnever Hd)
    as (log & H & Hids).
  exists log. simpl in H. by rewrite rebuilt_empty_id in H.
Qed.

(** A zero-result operation that the pattern erases: the stray replacement
    result is accepted and the operation disappears from the block. *)
Example erase_with_result_walk :
  rewrite_op erase_with_result false 3
    (mkOperation 0 ModuleOp [] [] [mkRegion [mkBlock [] [erase_op]]] ∅)
    empty_state =
  Return ([mkOperation 0 ModuleOp [] [] [mkRegion [mkBlock [] []]] ∅],
          mkWalkState (mkOperandUpdater ∅)
            [(mkOperation 0 ModuleOp [] []
                [mkRegion [mkBlock [] [erase_op]]] ∅, []);
             (erase_op, [])]).
Proof. reflexivity. Qed.

(** The user of a replaced result is rebound to the replacement: after the
    addition has become the multiplication, [test.use] reads 10. *)
Example add_to_mul_walk :
  exists s',
    rewrite_op add_to_mul false 3 add_module empty_state =
    Return ([mkOperation 0 ModuleOp [] []
               [mkRegion [mkBlock []
                  [mul_op; mkOperation 6 (OtherOp "test.use") [10] [] [] ∅]]]
               ∅], s') /\
    result_mapping (updater s') !! 9 = Some 10.
Proof. eexists. split; reflexivity. Qed.

(** * Further properties of the rewriter *)

(** ** Invariants of a walk *)

Lemma walk_each_rel {A B} (R : WalkState -> WalkState -> Prop)
    (f : A -> Walk B) l s out s' :
  (forall s, R s s) ->
  (forall s1 s2 s3, R s1 s2 -> R s2 s3 -> R s1 s3) ->
  (forall a s b s', f a s = Return (b, s') -> R s s') ->
  walk_each f l s out s' -> R s s'.
Proof.
  intros Hrefl Htrans Hf H. induction H as [s|a l s b s1 out s2 Ha H IH].
  - apply Hrefl.
  - eapply Htrans; [by eapply Hf|done].
Qed.

Lemma rewrite_each_rel (R : WalkState -> WalkState -> Prop) rec l s out s' :
  (forall s, R s s) ->
  (forall s1 s2 s3, R s1 s2 -> R s2 s3 -> R s1 s3) ->
  (forall o s r s', rec o s = Return (r, s') -> R s s') ->
  rewrite_each rec l s out s' -> R s s'.
Proof.
  intros Hrefl Htrans Hf H. induction H as [s|a l s b s1 out s2 Ha H IH].
  - apply Hrefl.
  - eapply Htrans; [by eapply Hf|done].
Qed.

Lemma rewrite_op_regions_with_rel (R : WalkState -> WalkState -> Prop)
    rec op s op' s' :
  (forall s, R s s) ->
  (forall s1 s2 s3, R s1 s2 -> R s2 s3 -> R s1 s3) ->
  (forall o s r s', rec o s = Return (r, s') -> R s s') ->
  rewrite_op_regions_with rec op s = Return (op', s') -> R s s'.
Proof.
  intros Hrefl Htrans Hrec H.
  apply rewrite_op_regions_with_spec in H as (rs & _ & H).
  eapply walk_each_rel; [done..| |exact H].
  intros r s0 r' s0' Hr. apply region_loop_spec in Hr as (bs & _ & Hr).
  eapply walk_each_rel; [done..| |exact Hr].
  intros b s1 b' s1' Hb. apply block_loop_spec in Hb as (out & _ & Hb).
  by eapply rewrite_each_rel.
Qed.

(** A relation between walk states that holds across a call of the pattern
    and across a call followed by the bookkeeping of its action holds across
    every call of [rewrite_op] that returns. *)
Lemma rewrite_op_rel (R : WalkState -> WalkState -> Prop) p wrf :
  (forall s, R s s) ->
  (forall s1 s2 s3, R s1 s2 -> R s2 s3 -> R s1 s3) ->
  (forall s op, R s (logged s op)) ->
  (forall s op a u',
     bookkeep_results (updater s) op a = Return u' ->
     R s (mkWalkState u' (offered (logged s op)))) ->
  forall fuel op s res s',
    rewrite_op p wrf fuel op s = Return (res, s') -> R s s'.
Proof.
  intros Hrefl Htrans Hoffer Hbook.
  induction fuel as [|fuel IH]; intros op s res s' H; [done|].
  rewrite rewrite_op_unfold in H.
  assert (forall op s op1 s1, pre_stage p wrf fuel op s = Return (op1, s1) ->
                              R s s1) as Hpre.
  { intros o s0 o1 s1. unfold pre_stage. destruct wrf.
    - by apply rewrite_op_regions_with_rel.
    - unfold wret. intros [= <- <-]. apply Hrefl. }
  destruct (pre_stage p wrf fuel op s) as [[op1 s1]|e|] eqn:Hp; [|done..].
  apply Hpre in Hp. eapply Htrans; [exact Hp|].
  destruct (match_and_rewrite p op1 _) as [a|].
  - destruct (bookkeep_results (updater s1) op1 a) as [u'| |] eqn:Hb;
      [|done..].
    eapply Htrans; [by apply (Hbook s1 op1 a u')|].
    apply extend_loop_spec in H as (out & _ & H).
    by eapply rewrite_each_rel.
  - eapply Htrans; [apply (Hoffer s1 op1)|].
    destruct wrf.
    + injection H as <- <-. apply Hrefl.
    + destruct (rewrite_op_regions p false fuel _ _) as [[op2 s2]|e|] eqn:Hr;
        [|done..].
      injection H as <- <-.
      by eapply rewrite_op_regions_with_rel.
Qed.

(** ** What [bookkeep_results] records and what it leaves *)

Lemma record_pairs_keeps_keys (m : gmap SSAValue SSAValue) ps k :
  is_Some (m !! k) -> is_Some (record_pairs m ps !! k).
Proof.
  revert m. induction ps as [|[a b] ps IH]; intros m Hk; [done|].
  unfold record_pairs in *. simpl. apply IH.
  destruct (decide (a = k)) as [->|Hne].
  - rewrite lookup_insert_eq. by eexists.
  - by rewrite lookup_insert_ne.
Qed.

Lemma zip_fst_elem_of {A B} (l : list A) (k : list B) x :
  x ∈ (zip l k).*1 -> x ∈ l.
Proof.
  intros Hin. apply list_elem_of_fmap in Hin as [[a b] [-> Hin]].
  by apply elem_of_zip_l in Hin.
Qed.

Lemma bookkeep_results_frame u op a u' v :
  bookkeep_results u op a = Return u' ->
  v ∉ results op ->
  result_mapping u' !! v = result_mapping u !! v.
Proof.
  unfold bookkeep_results. intros H Hv.
  destruct (decide (length (results op) = 0)); [by injection H as <-|].
  destruct (decide _); [|done]. injection H as <-. simpl.
  apply record_pairs_lookup_notin. intros Hin. apply Hv.
  by eapply zip_fst_elem_of.
Qed.

Lemma bookkeep_results_keeps_keys u op a u' k :
  bookkeep_results u op a = Return u' ->
  is_Some (result_mapping u !! k) -> is_Some (result_mapping u' !! k).
Proof.
  unfold bookkeep_results. intros H Hk.
  destruct (decide (length (results op) = 0)); [by injection H as <-|].
  destruct (decide _); [|done]. injection H as <-. simpl.
  by apply record_pairs_keeps_keys.
Qed.

(** X1: when [bookkeep_results] returns for an operation whose results are
    pairwise distinct, the i-th result of the operation resolves to the i-th
    replacement result afterwards, every value that is not a result of the
    operation resolves as before, and no key of the mapping is lost. *)
Theorem bookkeep_results_lookup
    (u : OperandUpdater) (op : Operation) (a : RewriteAction)
    (u' : OperandUpdater) :
  bookkeep_results u op a = Return u' ->
  NoDup (results op) ->
  (forall i o n,
     results op !! i = Some o -> new_results a !! i = Some n ->
     get_new_value u' o = n) /\
  (forall v, v ∉ results op -> get_new_value u' v = get_new_value u v) /\
  (forall k, is_Some (result_mapping u !! k) ->
             is_Some (result_mapping u' !! k)).
Proof.
  intros Hb Hnd. split; [|split].
  - intros i o n Ho Hn. by apply (bookkeep_results_records u u' op a i o n).
  - intros v Hv. unfold get_new_value.
    by rewrite (bookkeep_results_frame u op a u' v).
  - intros k. by apply (bookkeep_results_keeps_keys u op a).
Qed.

Lemma bookkeep_results_lookup_witness :
  bookkeep_results (mkOperandUpdater {[1 := 2]}) add_op
    (RewriteAction_init [mul_op] None) =
    Return (mkOperandUpdater (<[9 := 10]> {[1 := 2]})) /\
  NoDup (results add_op) /\
  get_new_value (mkOperandUpdater (<[9 := 10]> {[1 := 2]})) 9 = 10 /\
  get_new_value (mkOperandUpdater (<[9 := 10]> {[1 := 2]})) 1 =
    get_new_value (mkOperandUpdater {[1 := 2]}) 1.
Proof.
  assert (NoDup (results add_op)) as Hnd.
  { simpl. apply NoDup_singleton. }
  pose proof (bookkeep_results_lookup (mkOperandUpdater {[1 := 2]}) add_op
                (RewriteAction_init [mul_op] None)
                (mkOperandUpdater (<[9 := 10]> {[1 := 2]}))
                eq_refl Hnd) as (H1 & H2 & _).
  split; [reflexivity|]. split; [exact Hnd|]. split.
  - apply (H1 0); reflexivity.
  - apply H2. simpl. intros Hin. apply list_elem_of_singleton in Hin. lia.
Defined.

(** X2: an action built without [new_results] stands for the results of its
    last new operation: when that operation has as many results as the
    matched one, bookkeeping returns and maps the i-th old result to the i-th
    result of the last new operation. *)
Theorem default_new_results_are_last_results
    (u : OperandUpdater) (op : Operation) (ops : list Operation)
    (o : Operation) :
  last ops = Some o ->
  length (results o) = length (results op) ->
  NoDup (results op) ->
  new_ops (RewriteAction_init ops None) = ops /\
  exists u',
    bookkeep_results u op (RewriteAction_init ops None) = Return u' /\
    forall i a b,
      results op !! i = Some a -> results o !! i = Some b ->
      get_new_value u' a = b.
Proof.
  intros Hlast Hlen Hnd. unfold RewriteAction_init. rewrite Hlast.
  split; [done|].
  destruct (bookkeep_results u op (mkRewriteAction ops (results o)))
    as [u'|e|] eqn:Hb.
  - exists u'. split; [done|]. intros i a b Ha Hb'.
    by apply (bookkeep_results_records u u' op
                (mkRewriteAction ops (results o)) i a b).
  - unfold bookkeep_results in Hb. simpl in Hb.
    destruct (decide (length (results op) = 0)); [done|].
    destruct (decide (length (results op) = length (results o)));
      [done|congruence].
  - unfold bookkeep_results in Hb. simpl in Hb.
    destruct (decide (length (results op) = 0)); [done|].
    by destruct (decide (length (results op) = length (results o))).
Qed.

Lemma default_new_results_are_last_results_witness :
  last [erase_op; mul_op] = Some mul_op /\
  length (results mul_op) = length (results add_op) /\
  NoDup (results add_op) /\
  exists u',
    bookkeep_results (mkOperandUpdater ∅) add_op
      (RewriteAction_init [erase_op; mul_op] None) = Return u' /\
    forall i a b,
      results add_op !! i = Some a -> results mul_op !! i = Some b ->
      get_new_value u' a = b.
Proof.
  assert (NoDup (results add_op)) as Hnd.
  { simpl. apply NoDup_singleton. }
  split; [reflexivity|]. split; [reflexivity|]. split; [exact Hnd|].
  apply (default_new_results_are_last_results (mkOperandUpdater ∅) add_op
           [erase_op; mul_op] mul_op eq_refl eq_refl Hnd).
Defined.

(** X3: an action without new operations and without [new_results] has no
    replacement results; for a matched operation that has results the
    bookkeeping raises [AssertionError], and so does [rewrite_op]: an
    operation with results cannot be erased this way. *)
Theorem erase_operation_with_results_raises
    (p : RewritePattern) (wrf : bool) (fuel : nat) (op : Operation)
    (s : WalkState) (op1 : Operation) (s1 : WalkState) :
  pre_stage p wrf fuel op s = Return (op1, s1) ->
  match_and_rewrite p op1 (get_new_operands (updater s1) op1) =
    Some (RewriteAction_init [] None) ->
  0 < length (results op1) ->
  new_results (RewriteAction_init [] None) = [] /\
  rewrite_op p wrf (S fuel) op s = Raise AssertionError.
Proof.
  intros Hpre Hmatch Hk. split; [done|].
  rewrite rewrite_op_unfold, Hpre, Hmatch.
  unfold bookkeep_results. simpl.
  destruct (decide (length (results op1) = 0)); [lia|].
  destruct (decide (length (results op1) = 0)); [lia|done].
Qed.

Lemma erase_operation_with_results_raises_witness :
  pre_stage (AnonymousRewritePattern
               (fun _ _ => Some (RewriteAction_init [] None)))
    false 0 add_op empty_state = Return (add_op, empty_state) /\
  0 < length (results add_op) /\
  rewrite_op (AnonymousRewritePattern
                (fun _ _ => Some (RewriteAction_init [] None)))
    false 1 add_op empty_state = Raise AssertionError.
Proof.
  pose proof (erase_operation_with_results_raises
                (AnonymousRewritePattern
                   (fun _ _ => Some (RewriteAction_init [] None)))
                false 0 add_op empty_state add_op empty_state
                eq_refl eq_refl) as H.
  split; [reflexivity|]. split; [simpl; lia|].
  apply H. simpl. lia.
Defined.

(** X4: [update_operands] changes nothing the second time when no recorded
    replacement is itself replaced (each replacement resolves to itself); the
    single lookup then already gives the final value. *)
Theorem update_operands_idempotent (u : OperandUpdater) (op : Operation) :
  (forall k v, result_mapping u !! k = Some v -> get_new_value u v = v) ->
  update_operands u (update_operands u op) = update_operands u op.
Proof.
  intros Hflat.
  assert (forall x, get_new_value u (get_new_value u x) = get_new_value u x)
    as Hx.
  { intros x. unfold get_new_value at 2 3.
    destruct (result_mapping u !! x) as [v|] eqn:E; simpl.
    - by apply (Hflat x).
    - unfold get_new_value. by rewrite E. }
  destruct op as [i k xs rs rg a]. unfold update_operands, get_new_operands.
  simpl. f_equal. rewrite map_map. apply map_ext. intros x. apply Hx.
Qed.

Lemma update_operands_idempotent_witness :
  (forall k v,
     result_mapping (mkOperandUpdater {[9 := 10]}) !! k = Some v ->
     get_new_value (mkOperandUpdater {[9 := 10]}) v = v) /\
  update_operands (mkOperandUpdater {[9 := 10]})
    (update_operands (mkOperandUpdater {[9 := 10]})
       (mkOperation 6 (OtherOp "test.use") [9] [] [] ∅)) =
  mkOperation 6 (OtherOp "test.use") [10] [] [] ∅.
Proof.
  assert (forall k v,
            result_mapping (mkOperandUpdater {[9 := 10]}) !! k = Some v ->
            get_new_value (mkOperandUpdater {[9 := 10]}) v = v) as Hflat.
  { intros k v. simpl. intros H.
    apply lookup_singleton_Some in H as [_ <-]. reflexivity. }
  split; [exact Hflat|].
  rewrite (update_operands_idempotent _ _ Hflat). reflexivity.
Defined.

(** X5: [rewrite_module] does not return a module for any input: when
    [rewrite_op] returns exactly one operation it raises [IndexError] (the
    operation is read at index 1), when [rewrite_op] returns no or several
    operations it raises the [Exception] with its message, and it passes on
    what [rewrite_op] raises. *)
Theorem rewrite_module_outcome
    (p : RewritePattern) (wrf : bool) (fuel : nat) (op : Operation)
    (s : WalkState) :
  rewrite_module p wrf fuel op s =
  match rewrite_op p wrf fuel op s with
  | Return ([_], _) => Raise IndexError
  | Return (_, _) =>
      Raise (Exception
        "Rewrite pattern did not rewrite a module into another module.")
  | Raise e => Raise e
  | OutOfFuel => OutOfFuel
  end.
Proof.
  unfold rewrite_module, wbind.
  destruct (rewrite_op p wrf fuel op s) as [[l s1]|e|]; [|done..].
  by destruct l as [|o [|o' l]].
Qed.

(** ** Operations without regions *)

Lemma rewrite_op_regions_with_no_regions rec op s :
  regions op = [] -> rewrite_op_regions_with rec op s = Return (op, s).
Proof.
  intros H. unfold rewrite_op_regions_with. rewrite H. simpl.
  unfold wbind, wret. simpl. by destruct op; simpl in *; subst.
Qed.

Lemma pre_stage_no_regions p wrf fuel op s :
  regions op = [] -> pre_stage p wrf fuel op s = Return (op, s).
Proof.
  intros H. unfold pre_stage. destruct wrf; [|done].
  by apply rewrite_op_regions_with_no_regions.
Qed.

Lemma rewrite_op_leaf_no_match p wrf fuel o s :
  regions o = [] ->
  match_and_rewrite p o (get_new_operands (updater s) o) = None ->
  rewrite_op p wrf (S fuel) o s =
  Return ([update_operands (updater s) o], logged s o).
Proof.
  intros Hr Hm.
  rewrite rewrite_op_unfold, (pre_stage_no_regions _ _ _ _ _ Hr), Hm.
  destruct wrf; [done|].
  unfold rewrite_op_regions.
  rewrite rewrite_op_regions_with_no_regions; [done|].
  by destruct o.
Qed.

(** ** The two orders visit the same operations *)

Lemma postorder_perm_depth n op :
  depth op <= n -> postorder_ids op ≡ₚ preorder_ids op.
Proof.
  revert op. induction n as [|n IH]; intros op Hd.
  - destruct op; simpl in Hd; lia.
  - destruct op as [i k xs rs rg a]. simpl in *.
    rewrite <- Permutation_cons_append. constructor.
    assert (max_list (map region_depth rg) <= n) as Hrg by lia. clear Hd.
    induction rg as [|[bs] rg IHrg]; simpl in *; [done|].
    apply Permutation_app; [|apply IHrg; lia].
    assert (max_list (map block_depth bs) <= n) as Hb by lia. clear Hrg IHrg.
    induction bs as [|[ar os] bs IHbs]; simpl in *; [done|].
    apply Permutation_app; [|apply IHbs; lia].
    assert (max_list (map depth os) <= n) as Ho by lia. clear Hb IHbs.
    induction os as [|o os IHos]; simpl in *; [done|].
    apply Permutation_app; [apply IH; lia|apply IHos; lia].
Qed.

Lemma visit_order_perm wrf op : visit_order wrf op ≡ₚ preorder_ids op.
Proof.
  destruct wrf; simpl; [|done]. by apply (postorder_perm_depth (depth op)).
Qed.

(** X6: with a pattern that never matches and a recursion budget of at least
    the nesting depth, [rewrite_op] returns one operation, the tree with
    every operand looked up in the updater and every block rebuilt without
    arguments; the updater is unchanged, and the pattern has been called
    once on each operation of the tree: nested operations first with
    [walk_regions_first], parents first without it. *)
Theorem never_matching_walk
    (p : RewritePattern) (wrf : bool) (fuel : nat) (op : Operation)
    (s : WalkState) :
  (forall o xs, match_and_rewrite p o xs = None) ->
  depth op <= fuel ->
  exists log,
    rewrite_op p wrf fuel op s =
      Return ([rebuilt (updater s) op],
              mkWalkState (updater s) (offered s ++ log)) /\
    offered_ids log =
      (if wrf then postorder_ids op else preorder_ids op) /\
    offered_ids log ≡ₚ preorder_ids op.
Proof.
  intros Hnever Hd.
  destruct (never_match_rewrite_op p wrf fuel op s Hnever Hd)
    as (log & H & Hids).
  exists log. split; [done|]. split; [done|].
  rewrite Hids. apply visit_order_perm.
Qed.

Lemma never_matching_walk_witness :
  (forall o xs, match_and_rewrite never_matches o xs = None) /\
  depth func_module <= 3 /\
  exists log,
    rewrite_op never_matches true 3 func_module empty_state =
      Return ([rebuilt (updater empty_state) func_module],
              mkWalkState (updater empty_state)
                          (offered empty_state ++ log)) /\
    offered_ids log = postorder_ids func_module /\
    offered_ids log ≡ₚ preorder_ids func_module.
Proof.
  assert (forall o xs, match_and_rewrite never_matches o xs = None) as Hn
    by reflexivity.
  assert (depth func_module <= 3) as Hd by (simpl; lia).
  split; [exact Hn|]. split; [exact Hd|].
  exact (never_matching_walk never_matches true 3 func_module empty_state
           Hn Hd).
Defined.

(** X7: no-op stability where it holds: started with an empty updater, a
    walk with a pattern that never matches returns the very operation it was
    given when no block of the tree has block arguments, whatever the order
    of the walk. *)
Theorem never_matching_walk_returns_input
    (p : RewritePattern) (wrf : bool) (fuel : nat) (op : Operation)
    (log0 : list (Operation * list SSAValue)) :
  (forall o xs, match_and_rewrite p o xs = None) ->
  depth op <= fuel ->
  no_block_args op = true ->
  exists log,
    rewrite_op p wrf fuel op (mkWalkState (mkOperandUpdater ∅) log0) =
    Return ([op], mkWalkState (mkOperandUpdater ∅) (log0 ++ log)).
Proof.
  intros Hnever Hd Hna.
  destruct (never_match_rewrite_op p wrf fuel op
              (mkWalkState (mkOperandUpdater ∅) log0) Hnever Hd)
    as (log & H & _).
  exists log. simpl in H. by rewrite rebuilt_empty_id in H.
Qed.

Lemma never_matching_walk_returns_input_witness :
  (forall o xs, match_and_rewrite never_matches o xs = None) /\
  depth add_module <= 2 /\
  no_block_args add_module = true /\
  exists log,
    rewrite_op never_matches false 2 add_module
      (mkWalkState (mkOperandUpdater ∅) []) =
    Return ([add_module], mkWalkState (mkOperandUpdater ∅) ([] ++ log)).
Proof.
  assert (forall o xs, match_and_rewrite never_matches o xs = None) as Hn
    by reflexivity.
  assert (depth add_module <= 2) as Hd by (simpl; lia).
  split; [exact Hn|]. split; [exact Hd|]. split; [reflexivity|].
  exact (never_matching_walk_returns_input never_matches false 2 add_module
           [] Hn Hd eq_refl).
Defined.

Lemma walk_each_Forall2 {A B} (f : A -> Walk B) (Q : A -> B -> Prop)
    l s out s' :
  (forall a s b s', f a s = Return (b, s') -> Q a b) ->
  walk_each f l s out s' -> Forall2 Q l out.
Proof.
  intros Hf H. induction H as [s|a l s b s1 out s2 Ha H IH].
  - constructor.
  - constructor; [by eapply Hf|done].
Qed.

(** X8: when [rewrite_op_regions] returns, the operation has one new region
    for each old region, in order, each with as many blocks as the old one
    and none of them with block arguments; identity, kind, operands, results
    and attributes of the operation are unchanged. *)
Theorem rewrite_op_regions_shape
    (p : RewritePattern) (wrf : bool) (fuel : nat) (op : Operation)
    (s : WalkState) (op' : Operation) (s' : WalkState) :
  rewrite_op_regions p wrf fuel op s = Return (op', s') ->
  op' = set_regions op (regions op') /\
  Forall2 (fun r r' =>
             length (blocks r') = length (blocks r) /\
             Forall (fun b => args b = []) (blocks r'))
          (regions op) (regions op').
Proof.
  intros H. apply rewrite_op_regions_with_spec in H as (rs & -> & H).
  rewrite regions_set_regions. split; [done|].
  eapply walk_each_Forall2; [|exact H].
  intros r s0 r' s0' Hr. apply region_loop_spec in Hr as (bs & -> & Hr).
  simpl. split.
  - by eapply walk_each_length.
  - eapply walk_each_Forall; [|exact Hr].
    intros b s1 b' s1' Hb. by apply block_loop_spec in Hb as (out & -> & _).
Qed.

Lemma rewrite_op_regions_shape_witness :
  rewrite_op_regions never_matches false 1 func_op empty_state =
    Return (set_regions func_op [mkRegion [mkBlock [] [return_op]]],
            logged empty_state return_op) /\
  Forall2 (fun r r' =>
             length (blocks r') = length (blocks r) /\
             Forall (fun b => args b = []) (blocks r'))
          (regions func_op)
          (regions (set_regions func_op
                      [mkRegion [mkBlock [] [return_op]]])).
Proof.
  split; [reflexivity|].
  apply (rewrite_op_regions_shape never_matches false 1 func_op empty_state
           (set_regions func_op [mkRegion [mkBlock [] [return_op]]])
           (logged empty_state return_op) eq_refl).
Defined.

(** X9: an action without new operations removes the matched operation:
    when its bookkeeping returns, [rewrite_op] returns the empty list, so the
    operation leaves its block, and the values named as replacement results
    (which may be values that exist already, such as an operand) stand for
    its results from then on. *)
Theorem rewrite_op_replace_by_values
    (p : RewritePattern) (wrf : bool) (fuel : nat) (op : Operation)
    (s : WalkState) (op1 : Operation) (s1 : WalkState) (a : RewriteAction) :
  pre_stage p wrf fuel op s = Return (op1, s1) ->
  match_and_rewrite p op1 (get_new_operands (updater s1) op1) = Some a ->
  new_ops a = [] ->
  length (results op1) = length (new_results a) ->
  NoDup (results op1) ->
  exists u',
    rewrite_op p wrf (S fuel) op s =
      Return ([], mkWalkState u' (offered (logged s1 op1))) /\
    (forall b, block_loop (rewrite_op p wrf (S fuel)) [op] b s =
               Return (b, mkWalkState u' (offered (logged s1 op1)))) /\
    (forall i o n,
       results op1 !! i = Some o -> new_results a !! i = Some n ->
       get_new_value u' o = n) /\
    (forall v, v ∉ results op1 ->
               get_new_value u' v = get_new_value (updater s1) v).
Proof.
  intros Hpre Hmatch Hnew Hlen Hnd.
  assert (exists u', bookkeep_results (updater s1) op1 a = Return u')
    as [u' Hb].
  { unfold bookkeep_results.
    destruct (decide (length (results op1) = 0)); [by eexists|].
    destruct (decide _); [by eexists|done]. }
  assert (rewrite_op p wrf (S fuel) op s =
          Return ([], mkWalkState u' (offered (logged s1 op1)))) as Hr.
  { by rewrite rewrite_op_unfold, Hpre, Hmatch, Hb, Hnew. }
  exists u'. split; [exact Hr|]. split; [|split].
  - intros b. simpl. rewrite (wbind_Return _ _ _ _ _ Hr).
    by rewrite add_ops_nil.
  - intros i o n Ho Hn.
    by apply (bookkeep_results_records (updater s1) u' op1 a i o n).
  - intros v Hv. unfold get_new_value.
    by rewrite (bookkeep_results_frame (updater s1) op1 a u' v).
Qed.

Lemma rewrite_op_replace_by_values_witness :
  pre_stage (AnonymousRewritePattern
               (op_type_rewrite_pattern (has_name "arith.addi")
                  (fun _ xs => Some (RewriteAction_init [] (Some (take 1 xs))))))
    false 0 add_op empty_state = Return (add_op, empty_state) /\
  NoDup (results add_op) /\
  exists u',
    rewrite_op (AnonymousRewritePattern
                  (op_type_rewrite_pattern (has_name "arith.addi")
                     (fun _ xs =>
                        Some (RewriteAction_init [] (Some (take 1 xs))))))
      false 1 add_op empty_state =
      Return ([], mkWalkState u' (offered (logged empty_state add_op))) /\
    get_new_value u' 9 = 7.
Proof.
  assert (NoDup (results add_op)) as Hnd.
  { simpl. apply NoDup_singleton. }
  split; [reflexivity|]. split; [exact Hnd|].
  destruct (rewrite_op_replace_by_values
              (AnonymousRewritePattern
                 (op_type_rewrite_pattern (has_name "arith.addi")
                    (fun _ xs =>
                       Some (RewriteAction_init [] (Some (take 1 xs))))))
              false 0 add_op empty_state add_op empty_state
              (RewriteAction_init [] (Some [7]))
              eq_refl eq_refl eq_refl eq_refl Hnd)
    as (u' & Hr & _ & Hl & _).
  exists u'. split; [exact Hr|]. apply (Hl 0); reflexivity.
Defined.

(** The new operations of an action, when none of them has regions or is
    matched by the pattern, come back with their operands looked up. *)
Lemma extend_loop_leaves p wrf fuel l acc s :
  (forall o, o ∈ l ->
             regions o = [] /\ forall xs, match_and_rewrite p o xs = None) ->
  extend_loop (rewrite_op p wrf (S fuel)) l acc s =
  Return (acc ++ map (update_operands (updater s)) l,
          mkWalkState (updater s)
                      (offered s ++ map (call_of (updater s)) l)).
Proof.
  revert acc s. induction l as [|o l IH]; intros acc s Hl; simpl.
  - unfold wret. rewrite !app_nil_r. by destruct s.
  - destruct (Hl o) as [Hr Hm]; [by left|].
    rewrite (wbind_Return _ _ _ _ _
               (rewrite_op_leaf_no_match p wrf fuel o s Hr (Hm _))).
    rewrite IH by (intros o' Ho'; apply Hl; by right).
    simpl. by rewrite <- !app_assoc.
Qed.

Lemma rewrite_op_non_cascading p wrf fuel op s op1 s1 a u' :
  pre_stage p wrf (S fuel) op s = Return (op1, s1) ->
  match_and_rewrite p op1 (get_new_operands (updater s1) op1) = Some a ->
  bookkeep_results (updater s1) op1 a = Return u' ->
  (forall o, o ∈ new_ops a ->
             regions o = [] /\ forall xs, match_and_rewrite p o xs = None) ->
  rewrite_op p wrf (S (S fuel)) op s =
  Return (map (update_operands u') (new_ops a),
          mkWalkState u'
            (offered s1 ++ call_of (updater s1) op1 ::
             map (call_of u') (new_ops a))).
Proof.
  intros Hpre Hmatch Hb Hleaves.
  rewrite rewrite_op_unfold, Hpre, Hmatch, Hb.
  rewrite extend_loop_leaves by done. simpl.
  by rewrite <- app_assoc.
Qed.

(** X10: a rewrite that does not cascade: when the pattern matches, the
    bookkeeping returns the updater [u'], and no new operation of the action
    has regions or is matched itself, [rewrite_op] returns the new
    operations in their order with their operands looked up in [u'] (a new
    operation that uses a result of the matched operation is rebound to the
    replacement), after one call of the pattern on each of them. *)
Theorem rewrite_op_one_step
    (p : RewritePattern) (wrf : bool) (fuel : nat) (op : Operation)
    (s : WalkState) (op1 : Operation) (s1 : WalkState) (a : RewriteAction)
    (u' : OperandUpdater) :
  pre_stage p wrf (S fuel) op s = Return (op1, s1) ->
  match_and_rewrite p op1 (get_new_operands (updater s1) op1) = Some a ->
  bookkeep_results (updater s1) op1 a = Return u' ->
  (forall o, o ∈ new_ops a ->
             regions o = [] /\ forall xs, match_and_rewrite p o xs = None) ->
  rewrite_op p wrf (S (S fuel)) op s =
  Return (map (update_operands u') (new_ops a),
          mkWalkState u'
            (offered s1 ++ call_of (updater s1) op1 ::
             map (call_of u') (new_ops a))).
Proof.
  intros Hpre Hmatch Hb Hleaves.
  rewrite rewrite_op_unfold, Hpre, Hmatch, Hb.
  rewrite extend_loop_leaves by done. simpl.
  by rewrite <- app_assoc.
Qed.

Lemma rewrite_op_one_step_witness :
  pre_stage add_to_mul false 1 add_op empty_state =
    Return (add_op, empty_state) /\
  bookkeep_results (updater empty_state) add_op
    (RewriteAction_init [mul_op] None) =
    Return (mkOperandUpdater (<[9 := 10]> ∅)) /\
  rewrite_op add_to_mul false 2 add_op empty_state =
  Return ([mul_op],
          mkWalkState (mkOperandUpdater (<[9 := 10]> ∅))
            [(add_op, [7; 8]); (mul_op, [7; 8])]).
Proof.
  split; [reflexivity|]. split; [reflexivity|].
  apply (rewrite_op_one_step add_to_mul false 0 add_op empty_state
           add_op empty_state (RewriteAction_init [mul_op] None)
           (mkOperandUpdater (<[9 := 10]> ∅)) eq_refl eq_refl eq_refl).
  intros o Ho. apply list_elem_of_singleton in Ho as ->.
  split; reflexivity.
Defined.

Lemma bookkeep_results_returns u op a :
  length (results op) <> 0 ->
  length (results op) = length (new_results a) ->
  bookkeep_results u op a =
  Return (mkOperandUpdater
            (record_pairs (result_mapping u)
               (zip (results op) (new_results a)))).
Proof.
  intros Hn Hl. unfold bookkeep_results.
  destruct (decide (length (results op) = 0)); [done|].
  by destruct (decide (length (results op) = length (new_results a))).
Qed.

Lemma rewrite_op_match_single p fuel op s a u' o res s' :
  match_and_rewrite p op (get_new_operands (updater s) op) = Some a ->
  bookkeep_results (updater s) op a = Return u' ->
  new_ops a = [o] ->
  rewrite_op p false fuel o (mkWalkState u' (offered (logged s op))) =
    Return (res, s') ->
  rewrite_op p false (S fuel) op s = Return (res, s').
Proof.
  intros Hm Hb Hn Hw. rewrite rewrite_op_unfold.
  change (pre_stage p false fuel op s) with (Return (op, s)).
  cbv beta iota. rewrite Hm, Hb, Hn. apply extend_loop_spec. exists res. split; [done|].
  rewrite <- (app_nil_r res). by econstructor; [|constructor].
Qed.

(** X11: substitution is not chased through a cascade.  When the pattern
    replaces [A] by [B] and then [B] by [C] (actions without [new_results],
    [C] without regions and not matched), [rewrite_op] returns [C] alone,
    and afterwards the i-th result of [A] resolves to the i-th result of
    [B], the operation that is gone, while the i-th result of [B] resolves to
    the i-th result of [C]. *)
Theorem cascaded_rewrite_resolves_one_hop
    (p : RewritePattern) (fuel : nat) (A B C : Operation) (s : WalkState)
    (i : nat) (a b c : SSAValue) :
  (forall xs, match_and_rewrite p A xs = Some (RewriteAction_init [B] None)) ->
  (forall xs, match_and_rewrite p B xs = Some (RewriteAction_init [C] None)) ->
  (forall xs, match_and_rewrite p C xs = None) ->
  regions C = [] ->
  length (results A) = length (results B) ->
  length (results B) = length (results C) ->
  NoDup (results A) -> NoDup (results B) ->
  results A !! i = Some a -> results B !! i = Some b ->
  results C !! i = Some c ->
  a ∉ results B ->
  exists s',
    rewrite_op p false (S (S (S fuel))) A s =
      Return ([update_operands (updater s') C], s') /\
    get_new_value (updater s') a = b /\
    get_new_value (updater s') b = c.
Proof.
  intros HA HB HC HrC HlAB HlBC HndA HndB Ha Hb Hc Hab.
  assert (length (results A) <> 0) as HnA.
  { apply lookup_lt_Some in Ha. lia. }
  assert (length (results B) <> 0) as HnB by lia.
  set (m1 := record_pairs (result_mapping (updater s))
               (zip (results A) (results B))).
  set (m2 := record_pairs m1 (zip (results B) (results C))).
  set (s1 := mkWalkState (mkOperandUpdater m1) (offered (logged s A))).
  set (s2 := mkWalkState (mkOperandUpdater m2) (offered (logged s1 B))).
  exists (logged s2 C). split; [|split].
  - apply (rewrite_op_match_single p _ A s (RewriteAction_init [B] None)
             (mkOperandUpdater m1) B); [apply HA| |done|].
    { by apply bookkeep_results_returns. }
    apply (rewrite_op_match_single p _ B s1 (RewriteAction_init [C] None)
             (mkOperandUpdater m2) C); [apply HB| |done|].
    { by apply bookkeep_results_returns. }
    exact (rewrite_op_leaf_no_match p false fuel C s2 HrC (HC _)).
  - unfold get_new_value. simpl. unfold m2.
    rewrite record_pairs_lookup_notin.
    + unfold m1. by rewrite (record_pairs_lookup _ _ _ i a b).
    + intros Hin. apply Hab. by eapply zip_fst_elem_of.
  - unfold get_new_value. simpl. unfold m2.
    by rewrite (record_pairs_lookup _ _ _ i b c).
Qed.

Lemma cascaded_rewrite_resolves_one_hop_witness :
  (forall xs, match_and_rewrite add_to_mul_to_sub add_op xs =
              Some (RewriteAction_init [mul_op] None)) /\
  (forall xs, match_and_rewrite add_to_mul_to_sub mul_op xs =
              Some (RewriteAction_init [sub_op] None)) /\
  (forall xs, match_and_rewrite add_to_mul_to_sub sub_op xs = None) /\
  (9 ∉ results mul_op) /\
  exists s',
    rewrite_op add_to_mul_to_sub false 3 add_op empty_state =
      Return ([update_operands (updater s') sub_op], s') /\
    get_new_value (updater s') 9 = 10 /\
    get_new_value (updater s') 10 = 11.
Proof.
  assert (9 ∉ results mul_op) as Hnot.
  { simpl. intros Hin. apply list_elem_of_singleton in Hin. lia. }
  split; [reflexivity|]. split; [reflexivity|]. split; [reflexivity|].
  split; [exact Hnot|].
  apply (cascaded_rewrite_resolves_one_hop add_to_mul_to_sub 0
           add_op mul_op sub_op empty_state 0 9 10 11);
    try reflexivity; try exact Hnot; simpl; apply NoDup_singleton.
Defined.

(** ** What a walk does to the updater *)

Lemma rebinds_offered_results_refl s : rebinds_offered_results s s.
Proof. exists []. rewrite app_nil_r. split; [done|]. by intros v Hv. Qed.

Lemma rebinds_offered_results_trans s1 s2 s3 :
  rebinds_offered_results s1 s2 -> rebinds_offered_results s2 s3 ->
  rebinds_offered_results s1 s3.
Proof.
  intros (l1 & Hl1 & H1) (l2 & Hl2 & H2). exists (l1 ++ l2). split.
  - by rewrite Hl2, Hl1, app_assoc.
  - intros v Hv.
    destruct (decide (result_mapping (updater s2) !! v =
                      result_mapping (updater s1) !! v)) as [Heq|Hne].
    + destruct (H2 v) as (c & Hc & Hin); [congruence|].
      exists c. split; [|done]. apply elem_of_app. by right.
    + destruct (H1 v Hne) as (c & Hc & Hin).
      exists c. split; [|done]. apply elem_of_app. by left.
Qed.

(** X12: a walk rebinds nothing but results of operations that it handed to
    the pattern: when [rewrite_op] returns, every value that is not a result
    of an operation on which the pattern was called during this call (a
    block argument, the result of an operation outside the tree) resolves as
    it did before. *)
Theorem walk_rebinds_only_offered_results
    (p : RewritePattern) (wrf : bool) (fuel : nat) (op : Operation)
    (s : WalkState) (res : list Operation) (s' : WalkState) :
  rewrite_op p wrf fuel op s = Return (res, s') ->
  exists l,
    offered s' = offered s ++ l /\
    forall v,
      (forall c, c ∈ l -> v ∉ results c.1) ->
      get_new_value (updater s') v = get_new_value (updater s) v.
Proof.
  intros H.
  assert (rebinds_offered_results s s') as (l & Hl & Hfr).
  { revert H. apply (rewrite_op_rel rebinds_offered_results p wrf).
    - apply rebinds_offered_results_refl.
    - apply rebinds_offered_results_trans.
    - intros s0 o. exists [(o, get_new_operands (updater s0) o)].
      split; [done|]. by intros v Hv.
    - intros s0 o a u' Hb. exists [(o, get_new_operands (updater s0) o)].
      split; [done|]. simpl. intros v Hv.
      exists (o, get_new_operands (updater s0) o).
      split; [by apply list_elem_of_singleton|]. simpl.
      destruct (decide (v ∈ results o)) as [Hin|Hnin]; [done|].
      by rewrite (bookkeep_results_frame _ o a u' v Hb Hnin) in Hv. }
  exists l. split; [done|]. intros v Hv. unfold get_new_value.
  destruct (decide (result_mapping (updater s') !! v =
                    result_mapping (updater s) !! v)) as [->|Hne]; [done|].
  destruct (Hfr v Hne) as (c & Hc & Hin). by destruct (Hv c Hc).
Qed.

Lemma walk_rebinds_only_offered_results_witness :
  rewrite_op add_to_mul false 3 add_module empty_state =
    Return ([mkOperation 0 ModuleOp [] []
               [mkRegion [mkBlock []
                  [mul_op; mkOperation 6 (OtherOp "test.use") [10] [] [] ∅]]]
               ∅],
            mkWalkState (mkOperandUpdater (<[9 := 10]> ∅))
              [(add_module, []); (add_op, [7; 8]); (mul_op, [7; 8]);
               (mkOperation 6 (OtherOp "test.use") [9] [] [] ∅, [10])]) /\
  exists l,
    [(add_module, []); (add_op, [7; 8]); (mul_op, [7; 8]);
     (mkOperation 6 (OtherOp "test.use") [9] [] [] ∅, [10])] =
      offered empty_state ++ l /\
    forall v,
      (forall c, c ∈ l -> v ∉ results c.1) ->
      get_new_value (mkOperandUpdater (<[9 := 10]> ∅)) v =
      get_new_value (updater empty_state) v.
Proof.
  split; [reflexivity|].
  exact (walk_rebinds_only_offered_results add_to_mul false 3 add_module
           empty_state _ _ eq_refl).
Defined.

(** X13: a walk never drops a recorded substitution: every key of the
    mapping before a call of [rewrite_op] that returns is a key after it. *)
Theorem walk_keeps_keys
    (p : RewritePattern) (wrf : bool) (fuel : nat) (op : Operation)
    (s : WalkState) (res : list Operation) (s' : WalkState) (k : SSAValue) :
  rewrite_op p wrf fuel op s = Return (res, s') ->
  is_Some (result_mapping (updater s) !! k) ->
  is_Some (result_mapping (updater s') !! k).
Proof.
  intros H. revert k.
  change (keeps_keys s s'). revert H.
  apply (rewrite_op_rel keeps_keys p wrf).
  - by intros s0 k.
  - intros s1 s2 s3 H1 H2 k Hk. by apply H2, H1.
  - by intros s0 o k.
  - intros s0 o a u' Hb k Hk. simpl.
    by apply (bookkeep_results_keeps_keys (updater s0) o a).
Qed.

Lemma walk_keeps_keys_witness :
  rewrite_op add_to_mul false 2 add_op
    (mkWalkState (mkOperandUpdater {[1 := 2]}) []) =
    Return ([mul_op],
            mkWalkState (mkOperandUpdater (<[9 := 10]> {[1 := 2]}))
              [(add_op, [7; 8]); (mul_op, [7; 8])]) /\
  is_Some (({[1 := 2]} : gmap nat nat) !! 1) /\
  is_Some ((<[9 := 10]> ({[1 := 2]} : gmap nat nat)) !! 1).
Proof.
  assert (rewrite_op add_to_mul false 2 add_op
            (mkWalkState (mkOperandUpdater {[1 := 2]}) []) =
          Return ([mul_op],
                  mkWalkState (mkOperandUpdater (<[9 := 10]> {[1 := 2]}))
                    [(add_op, [7; 8]); (mul_op, [7; 8])])) as Hw
    by reflexivity.
  assert (is_Some (({[1 := 2]} : gmap nat nat) !! 1)) as Hk
    by (by eexists).
  split; [exact Hw|]. split; [exact Hk|].
  exact (walk_keeps_keys add_to_mul false 2 add_op
           (mkWalkState (mkOperandUpdater {[1 := 2]}) [])
           [mul_op]
           (mkWalkState (mkOperandUpdater (<[9 := 10]> {[1 := 2]}))
              [(add_op, [7; 8]); (mul_op, [7; 8])]) 1 Hw Hk).
Defined.

(** ** A pattern that is filtered by the type of the operation *)

Section InertWalk.

Variable p : RewritePattern.
Variable wrf : bool.
Variable inert : OpKind -> bool.
Hypothesis Hinert :
  forall o xs, inert (kind o) = true -> match_and_rewrite p o xs = None.

Variable rec : Operation -> Walk (list Operation).
Variable n : nat.
Hypothesis Hrec :
  forall o s, depth o <= n -> all_kinds inert o = true ->
              quiet (rec o) s [rebuilt (updater s) o] (visit_order wrf o).

Lemma inert_block_loop os b s :
  max_list (map depth os) <= n ->
  forallb (all_kinds inert) os = true ->
  quiet (block_loop rec os b) s
        (add_ops b (map (rebuilt (updater s)) os))
        (concat (map (visit_order wrf) os)).
Proof using Hrec.
  revert b s. induction os as [|o os IH]; intros b s Hd Hk; simpl in *.
  - rewrite add_ops_nil. apply quiet_wret.
  - apply andb_prop in Hk as [Ho Hos].
    eapply quiet_bind; [apply Hrec; [lia|done]|].
    intros s1 Hs1. rewrite <- Hs1.
    replace (add_ops b (rebuilt (updater s1) o ::
                        map (rebuilt (updater s1)) os))
      with (add_ops (add_ops b [rebuilt (updater s1) o])
                    (map (rebuilt (updater s1)) os))
      by (by rewrite add_ops_add_ops).
    apply IH; [lia|done].
Qed.

Lemma inert_region_loop bs r s :
  max_list (map block_depth bs) <= n ->
  forallb (block_all_kinds inert) bs = true ->
  quiet (region_loop rec bs r) s
        (mkRegion (blocks r ++ map (rebuilt_block (updater s)) bs))
        (concat (map (block_visit_order wrf) bs)).
Proof using Hrec.
  revert r s. induction bs as [|b bs IH]; intros r s Hd Hk; simpl in *.
  - rewrite app_nil_r. destruct r. apply quiet_wret.
  - apply andb_prop in Hk as [Hb Hbs].
    replace (block_visit_order wrf b)
      with (concat (map (visit_order wrf) (ops b)))
      by (by destruct b, wrf).
    eapply quiet_bind.
    + apply (inert_block_loop (ops b) Block_new s); destruct b; simpl in *;
        [lia|done].
    + intros s1 Hs1. rewrite <- Hs1.
      replace (blocks r ++ rebuilt_block (updater s1) b ::
               map (rebuilt_block (updater s1)) bs)
        with (blocks (add_block r
                (add_ops Block_new (map (rebuilt (updater s1)) (ops b)))) ++
              map (rebuilt_block (updater s1)) bs).
      * apply IH; [lia|done].
      * simpl. rewrite <- app_assoc. by destruct b.
Qed.

Lemma inert_regions_loop rs acc s :
  max_list (map region_depth rs) <= n ->
  forallb (region_all_kinds inert) rs = true ->
  quiet (regions_loop rec rs acc) s
        (acc ++ map (rebuilt_region (updater s)) rs)
        (concat (map (region_visit_order wrf) rs)).
Proof using Hrec.
  revert acc s. induction rs as [|r rs IH]; intros acc s Hd Hk; simpl in *.
  - rewrite app_nil_r. apply quiet_wret.
  - apply andb_prop in Hk as [Hr Hrs].
    replace (region_visit_order wrf r)
      with (concat (map (block_visit_order wrf) (blocks r)))
      by (by destruct r, wrf).
    eapply quiet_bind.
    + apply (inert_region_loop (blocks r) Region_new s); destruct r;
        simpl in *; [lia|done].
    + intros s1 Hs1. rewrite <- Hs1.
      replace (acc ++ rebuilt_region (updater s1) r ::
               map (rebuilt_region (updater s1)) rs)
        with ((acc ++ [mkRegion (blocks Region_new ++
                 map (rebuilt_block (updater s1)) (blocks r))]) ++
              map (rebuilt_region (updater s1)) rs).
      * apply IH; [lia|done].
      * rewrite <- app_assoc. by destruct r.
Qed.

Lemma inert_rewrite_op_regions_with op s :
  depth op <= S n ->
  forallb (region_all_kinds inert) (regions op) = true ->
  quiet (rewrite_op_regions_with rec op) s
        (set_regions op (map (rebuilt_region (updater s)) (regions op)))
        (concat (map (region_visit_order wrf) (regions op))).
Proof using Hrec.
  intros Hd Hk. unfold rewrite_op_regions_with.
  rewrite <- (app_nil_r (concat _)).
  eapply quiet_bind.
  - apply inert_regions_loop; [|done]. destruct op. simpl in *. lia.
  - intros s1 Hs1. rewrite foldl_add_region, regions_set_regions,
      set_regions_twice. simpl. apply quiet_wret.
Qed.

Lemma inert_rewrite_op_body op s :
  depth op <= S n ->
  all_kinds inert op = true ->
  quiet (rewrite_op_body p wrf rec op) s
        [rebuilt (updater s) op] (visit_order wrf op).
Proof using Hrec Hinert.
  intros Hd Hk.
  assert (inert (kind op) = true /\
          forallb (region_all_kinds inert) (regions op) = true) as [Hko Hkr].
  { destruct op. simpl in *. by apply andb_prop in Hk. }
  destruct (inert_rewrite_op_regions_with op s Hd Hkr) as (l1 & H1 & Hl1).
  destruct (inert_rewrite_op_regions_with
              (update_operands (updater s) op) (logged s op))
    as (l2 & H2 & Hl2).
  { destruct op; simpl in *. lia. }
  { by destruct op. }
  rewrite region_visit_order_concat in Hl1, Hl2.
  unfold quiet, rewrite_op_body, wbind, offer, rebind, wret.
  destruct wrf.
  - rewrite H1. cbn [updater offered negb].
    rewrite Hinert by (by destruct op).
    eexists. split.
    + rewrite <- app_assoc. destruct op. reflexivity.
    + unfold offered_ids in *. rewrite map_app, Hl1. by destruct op.
  - rewrite Hinert by done. cbn [updater offered negb].
    unfold logged in H2. rewrite H2. cbn [updater offered].
    eexists. split.
    + rewrite <- app_assoc. destruct op. reflexivity.
    + unfold offered_ids in *. simpl. rewrite Hl2. by destruct op.
Qed.

End InertWalk.

Lemma inert_walk p wrf inert fuel op s :
  (forall o xs, inert (kind o) = true -> match_and_rewrite p o xs = None) ->
  depth op <= fuel ->
  all_kinds inert op = true ->
  quiet (rewrite_op p wrf fuel op) s
        [rebuilt (updater s) op] (visit_order wrf op).
Proof.
  intros Hinert. revert op s. induction fuel as [|fuel IH]; intros op s Hd Hk.
  - destruct op; simpl in Hd; lia.
  - simpl. by apply inert_rewrite_op_body with (inert := inert) (n := fuel).
Qed.

(** X14: a pattern made by [op_type_rewrite_pattern] never calls its
    function on an operation of another type, so a tree in which no operation
    has the expected type is walked as if the pattern never matched: the walk
    returns the rebuilt tree, leaves the updater alone and has called the
    pattern once on each operation, whatever the function does. *)
Theorem type_filtered_walk
    (expected : OpKind -> bool)
    (func : Operation -> list SSAValue -> option RewriteAction)
    (wrf : bool) (fuel : nat) (op : Operation) (s : WalkState) :
  all_kinds (fun k => negb (expected k)) op = true ->
  depth op <= fuel ->
  exists log,
    rewrite_op
      (AnonymousRewritePattern
         (op_type_rewrite_pattern (fun o => expected (kind o)) func))
      wrf fuel op s =
      Return ([rebuilt (updater s) op],
              mkWalkState (updater s) (offered s ++ log)) /\
    offered_ids log =
      (if wrf then postorder_ids op else preorder_ids op).
Proof.
  intros Hk Hd.
  apply (inert_walk _ wrf (fun k => negb (expected k)) fuel op s); [|done..].
  intros o xs Ho. simpl. unfold op_type_rewrite_pattern.
  by destruct (expected (kind o)).
Qed.

Lemma type_filtered_walk_witness :
  all_kinds (fun k => negb (match k with
                            | ModuleOp => false
                            | OtherOp n => bool_decide (n = "arith.addi")
                            end)) func_module = true /\
  depth func_module <= 3 /\
  exists log,
    rewrite_op
      (AnonymousRewritePattern
         (op_type_rewrite_pattern
            (fun o => match kind o with
                      | ModuleOp => false
                      | OtherOp n => bool_decide (n = "arith.addi")
                      end)
            (fun _ _ => Some (RewriteAction_init [mul_op] None))))
      false 3 func_module empty_state =
      Return ([rebuilt (updater empty_state) func_module],
              mkWalkState (updater empty_state)
                          (offered empty_state ++ log)) /\
    offered_ids log = preorder_ids func_module.
Proof.
  assert (depth func_module <= 3) as Hd by (simpl; lia).
  split; [reflexivity|]. split; [exact Hd|].
  exact (type_filtered_walk
           (fun k => match k with
                     | ModuleOp => false
                     | OtherOp n => bool_decide (n = "arith.addi")
                     end)
           (fun _ _ => Some (RewriteAction_init [mul_op] None))
           false 3 func_module empty_state eq_refl Hd).
Defined.

(** X15: nothing in the walker catches an exception.  When the call of
    [rewrite_op] on a nested operation raises, after the regions, blocks and
    operations before it were rewritten, the call of [rewrite_op] on the
    enclosing operation raises the same exception: with
    [walk_regions_first] in any case, without it when the pattern does not
    match the enclosing operation. *)
Theorem nested_exception_aborts_rewrite_op
    (p : RewritePattern) (wrf : bool) (fuel : nat) (op : Operation)
    (s : WalkState)
    (rs_pre rs_post : list Region) (bs_pre bs_post : list Block)
    (ar : list SSAValue) (os_pre os_post : list Operation) (o : Operation)
    (rs' : list Region) (s1 : WalkState) (bs' : list Block) (s2 : WalkState)
    (out : list Operation) (s3 : WalkState) (e : PyExc) :
  (wrf = false ->
   match_and_rewrite p op (get_new_operands (updater s) op) = None) ->
  regions op =
    rs_pre ++
    mkRegion (bs_pre ++ mkBlock ar (os_pre ++ o :: os_post) :: bs_post) ::
    rs_post ->
  walk_each (rebuild_region (rewrite_op p wrf fuel)) rs_pre
    (if wrf then s else logged s op) rs' s1 ->
  walk_each (rebuild_block (rewrite_op p wrf fuel)) bs_pre s1 bs' s2 ->
  rewrite_each (rewrite_op p wrf fuel) os_pre s2 out s3 ->
  rewrite_op p wrf fuel o s3 = Raise e ->
  rewrite_op p wrf (S fuel) op s = Raise e.
Proof.
  intros Hm Hrg Hrs Hbs Hos He.
  assert (forall op0,
            regions op0 = regions op ->
            rewrite_op_regions p wrf fuel op0
              (if wrf then s else logged s op) = Raise e) as Hraise.
  { intros op0 Hop0. unfold rewrite_op_regions.
    apply rewrite_op_regions_with_raise. rewrite Hop0, Hrg.
    eapply regions_loop_raise; [exact Hrs|].
    unfold rebuild_region. simpl.
    eapply region_loop_raise; [exact Hbs|].
    unfold rebuild_block. simpl.
    by eapply block_loop_raise. }
  rewrite rewrite_op_unfold. unfold pre_stage. destruct wrf.
  - by rewrite Hraise.
  - unfold wret. rewrite Hm by done.
    rewrite Hraise; [done|]. by destruct op.
Qed.

Lemma nested_exception_aborts_rewrite_op_witness :
  match_and_rewrite add_to_mul_two_results add_module
    (get_new_operands (updater empty_state) add_module) = None /\
  rewrite_op add_to_mul_two_results false 1 add_op
    (logged empty_state add_module) = Raise AssertionError /\
  rewrite_op add_to_mul_two_results false 2 add_module empty_state =
    Raise AssertionError.
Proof.
  assert (rewrite_op add_to_mul_two_results false 1 add_op
            (logged empty_state add_module) = Raise AssertionError) as He
    by reflexivity.
  split; [reflexivity|]. split; [exact He|].
  apply (nested_exception_aborts_rewrite_op add_to_mul_two_results false 1
           add_module empty_state [] [] [] [] [] []
           [mkOperation 6 (OtherOp "test.use") [9] [] [] ∅] add_op
           [] (logged empty_state add_module)
           [] (logged empty_state add_module)
           [] (logged empty_state add_module) AssertionError).
  - reflexivity.
  - reflexivity.
  - constructor.
  - constructor.
  - constructor.
  - exact He.
Defined.

(** * The operator tables of the front end *)

(** X16: every class of binary operator of Python's [ast] is a key of the
    table of [visit_BinOp], so the test [op_name not in ...] never rejects
    the operator of a parsed [BinOp]; and two operators never share an
    overload. *)
Theorem binop_table_covers_ast (o : ast_operator) :
  (exists m,
     python_AST_operator_to_python_overload !! operator_class_name o =
     Some m) /\
  (forall o',
     python_AST_operator_to_python_overload !! operator_class_name o' =
     python_AST_operator_to_python_overload !! operator_class_name o ->
     o' = o).
Proof.
  split.
  - destruct o; eexists; vm_compute; reflexivity.
  - intros o'. destruct o, o'; vm_compute; intros H;
      first [reflexivity | discriminate H].
Qed.

(** X17: the tables of [visit_Compare] agree with each other.  A comparison
    operator of Python's [ast] is in the unsupported set exactly when it is
    [is], [is not] or [not in]; every other one has an overload, and [in]
    apart a mnemonic too, so that neither dictionary lookup made after the
    unsupported test raises [KeyError].  The overload listed for [not in] is
    never used. *)
Theorem cmpop_tables_cover_ast (c : ast_cmpop) :
  (cmpop_class_name c ∈ unsupported_python_AST_cmpop <->
   c = ast_Is \/ c = ast_IsNot \/ c = ast_NotIn) /\
  (cmpop_class_name c ∉ unsupported_python_AST_cmpop ->
   (exists m,
      python_AST_cmpop_to_python_overload !! cmpop_class_name c = Some m) /\
   (cmpop_class_name c <> "In" ->
    exists m,
      python_AST_cmpop_to_mnemonic !! cmpop_class_name c = Some m)) /\
  python_AST_cmpop_to_python_overload !! "NotIn" = Some "__contains__" /\
  "NotIn" ∈ unsupported_python_AST_cmpop.
Proof.
  assert (forall x : string,
            x ∈ unsupported_python_AST_cmpop <->
            x = "Is" \/ x = "IsNot" \/ x = "NotIn") as Hun.
  { intros x. unfold unsupported_python_AST_cmpop.
    rewrite elem_of_list_to_set, !elem_of_cons, elem_of_nil. tauto. }
  split; [|split; [|split]].
  - rewrite Hun. destruct c; simpl; split; intros H;
      first [by auto | by destruct H as [H|[H|H]]; discriminate H].
  - rewrite Hun. intros Hn. destruct c; simpl in *;
      try (exfalso; apply Hn; by auto).
    all: split; [eexists; vm_compute; reflexivity|].
    all: intros Hin; first [done | eexists; vm_compute; reflexivity].
  - vm_compute. reflexivity.
  - apply Hun. by auto.
Qed.

(** * The signature check of [op_type_rewrite_pattern] *)

(** X18: the decorator takes a function for a method by the number of its
    parameters alone.  With exactly three parameters the annotation of the
    second one is the expected type, whatever the first and the third are;
    with any other number it is the annotation of the first, whatever
    follows; without parameters the decorator raises [IndexError].  When it
    returns, the expected type is a subclass of [Operation]. *)
Theorem op_type_rewrite_pattern_expected_by_arity :
  op_type_rewrite_pattern_expected [] = Raise IndexError /\
  (forall a a' b c c',
     op_type_rewrite_pattern_expected [a; b; c] =
     op_type_rewrite_pattern_expected [a'; b; c']) /\
  (forall a rest rest',
     length (a :: rest) <> 3 -> length (a :: rest') <> 3 ->
     op_type_rewrite_pattern_expected (a :: rest) =
     op_type_rewrite_pattern_expected (a :: rest')) /\
  (forall params has_self t,
     op_type_rewrite_pattern_expected params = Return (has_self, t) ->
     has_self = bool_decide (length params = 3) /\
     params !! (if has_self then 1 else 0) = Some t /\
     exists isinstance, t = operation_class isinstance).
Proof.
  split; [reflexivity|]. split; [reflexivity|]. split.
  - intros a rest rest' H1 H2. unfold op_type_rewrite_pattern_expected.
    destruct (decide (length (a :: rest) = 3)); [done|].
    by destruct (decide (length (a :: rest') = 3)).
  - intros params has_self t. unfold op_type_rewrite_pattern_expected.
    destruct (decide (length params = 3)) as [Hl|Hl].
    + rewrite (bool_decide_eq_true_2 _ Hl).
      destruct params as [|a [|b [|c [|d rest]]]]; try done.
      simpl. destruct b; simpl; intros [= <- <-]. by eauto.
    + rewrite (bool_decide_eq_false_2 _ Hl).
      destruct params as [|a rest]; [done|].
      simpl. destruct a; simpl; intros [= <- <-]. by eauto.
Qed.

(** * Uses of a replaced result *)

(** X19: substitution reaches the operations that follow in the block.  When
    a block holds [O] and then [U], the pattern replaces [O] in one step and
    does not match [U] (an operation without regions), the new block holds
    the replacement operations followed by [U], and every operand of [U]
    that was the i-th result of [O] is now the i-th replacement result. *)
Theorem later_sibling_is_rebound
    (p : RewritePattern) (wrf : bool) (fuel : nat) (O U : Operation)
    (s : WalkState) (O1 : Operation) (s1 : WalkState) (a : RewriteAction)
    (u' : OperandUpdater) (b : Block) :
  pre_stage p wrf (S fuel) O s = Return (O1, s1) ->
  match_and_rewrite p O1 (get_new_operands (updater s1) O1) = Some a ->
  bookkeep_results (updater s1) O1 a = Return u' ->
  (forall o, o ∈ new_ops a ->
             regions o = [] /\ forall xs, match_and_rewrite p o xs = None) ->
  regions U = [] ->
  (forall xs, match_and_rewrite p U xs = None) ->
  NoDup (results O) ->
  (exists s',
     block_loop (rewrite_op p wrf (S (S fuel))) [O; U] b s =
     Return (add_ops b (map (update_operands u') (new_ops a) ++
                        [update_operands u' U]), s')) /\
  (forall i j r n,
     results O !! i = Some r -> new_results a !! i = Some n ->
     operands U !! j = Some r ->
     operands (update_operands u' U) !! j = Some n).
Proof.
  intros Hpre Hmatch Hb Hleaves HrU HmU Hnd.
  pose proof (rewrite_op_non_cascading p wrf fuel O s O1 s1 a u'
                Hpre Hmatch Hb Hleaves) as HO.
  split.
  - eexists. simpl. rewrite (wbind_Return _ _ _ _ _ HO).
    rewrite (wbind_Return _ _ _ _ _
               (rewrite_op_leaf_no_match p wrf (S fuel) U _ HrU (HmU _))).
    unfold wret. simpl. rewrite add_ops_add_ops. reflexivity.
  - intros i j r n Hr Hn HU.
    apply pre_stage_frame in Hpre as (_ & _ & _ & Hres & _).
    rewrite <- Hres in Hr, Hnd.
    destruct (update_operands_fields u' U) as (_ & _ & -> & _).
    rewrite list_lookup_fmap, HU. simpl. f_equal.
    by apply (bookkeep_results_records (updater s1) u' O1 a i r n).
Qed.

Lemma later_sibling_is_rebound_witness :
  pre_stage add_to_mul false 1 add_op empty_state =
    Return (add_op, empty_state) /\
  NoDup (results add_op) /\
  (exists s',
     block_loop (rewrite_op add_to_mul false 2)
       [add_op; mkOperation 6 (OtherOp "test.use") [9] [] [] ∅]
       Block_new empty_state =
     Return (add_ops Block_new
               (map (update_operands (mkOperandUpdater (<[9 := 10]> ∅)))
                    [mul_op] ++
                [update_operands (mkOperandUpdater (<[9 := 10]> ∅))
                   (mkOperation 6 (OtherOp "test.use") [9] [] [] ∅)]), s')) /\
  operands (update_operands (mkOperandUpdater (<[9 := 10]> ∅))
              (mkOperation 6 (OtherOp "test.use") [9] [] [] ∅)) !! 0 =
    Some 10.
Proof.
  assert (NoDup (results add_op)) as Hnd.
  { simpl. apply NoDup_singleton. }
  destruct (later_sibling_is_rebound add_to_mul false 0 add_op
              (mkOperation 6 (OtherOp "test.use") [9] [] [] ∅)
              empty_state add_op empty_state
              (RewriteAction_init [mul_op] None)
              (mkOperandUpdater (<[9 := 10]> ∅)) Block_new
              eq_refl eq_refl eq_refl) as [H1 H2].
  - intros o Ho. apply list_elem_of_singleton in Ho as ->.
    split; reflexivity.
  - reflexivity.
  - reflexivity.
  - exact Hnd.
  - split; [reflexivity|]. split; [exact Hnd|]. split; [exact H1|].
    apply (H2 0 0 9 10); reflexivity.
Defined.
